(** * Event overlay renderer: [event_detector/event_visualizer.py]

    A shallow embedding of the [EventVisualizer] class and the properties of
    its per-frame driver [draw_events] and of the per-event drawing routines
    [draw_pass_event], [draw_pressure_event] and [draw_possession_change].

    Conventions of the embedding.
    - Frame numbers and player/team identifiers are Python [int]s: [Z].
    - Python [float]s ([pressure_intensity], positions, the progress of a
      pass) are exact rationals [Q].  On the inputs the statements single
      out (0, 1/2, 1, small frame numbers) the IEEE operations of the source
      are exact, so both agree there; rounding of other floats is outside
      the model.
    - The frame is a numpy raster that OpenCV mutates in place.  Its pixels
      are not modelled: a frame is its shape together with the sequence of
      OpenCV drawing calls applied to it so far.
    - Methods run in a state-and-exception monad over a [machine]: the
      frame, the visualizer instance ([self]) and the tick counter of the
      host that [cv2.getTickCount] reads.  An exception leaves the state as
      it was when it was raised, as in Python.  The [frame] argument and
      the frame a method returns are the frame of the machine. *)

From Stdlib Require Import QArith Qround Lqa.
From stdpp Require Import gmap strings pretty.

Open Scope Z_scope.

(** ** Python values *)

(** [int(x)] on a float truncates toward zero. *)
Definition py_int (x : Q) : Z :=
  if Qle_bool 0 x then Qfloor x else Qceiling x.

(** [str(x)] for an [int] and for an [Optional[int]]. *)
Definition py_str (n : Z) : string := pretty n.

Definition py_str_opt (o : option Z) : string :=
  match o with
  | Some n => py_str n
  | None => "None"
  end.

(** Truthiness of an [Optional[int]]: [None] and [0] are falsy. *)
Definition truthy (o : option Z) : bool :=
  match o with
  | Some n => negb (n =? 0)
  | None => false
  end.

(** ** Events ([events.py], of which only the attributes read here matter) *)

Module PassEvent.
Record t := mk {
  start_frame : Z;
  end_frame : Z;
  description : string;
  passer_id : Z;
  receiver_id : option Z
}.
End PassEvent.

Module PressureEvent.
Record t := mk {
  start_frame : Z;
  end_frame : Z;
  description : string;
  pressuring_player_id : Z;
  pressured_player_id : Z;
  pressure_intensity : Q
}.
End PressureEvent.

Module PossessionChangeEvent.
Record t := mk {
  start_frame : Z;
  end_frame : Z;
  description : string;
  previous_team : Z;
  new_team : Z
}.
End PossessionChangeEvent.

(** The three subclasses of [Event]; [isinstance] is a match on the tag. *)
Inductive Event :=
| EPass (e : PassEvent.t)
| EPressure (e : PressureEvent.t)
| EPossession (e : PossessionChangeEvent.t).

(** ** Tracking data *)

(** Modelled from the spec: the record of one tracked player, which is built
    by the tracking subsystem and holds at least a 2D [position]. *)
Record PlayerTrack := { position : Q * Q }.

(** Modelled from the spec: the table [tracks["players"]], a mapping from
    frame index to a mapping from player identifier to that player's
    record.  [tracks] itself is the dictionary that holds it under the key
    ["players"]. *)
Abbreviation TrackTable := (gmap Z (gmap Z PlayerTrack)).
Abbreviation Tracks := (gmap string TrackTable).

(** ** Frames and OpenCV calls *)

Abbreviation point := (Z * Z)%type.
Abbreviation color := (Z * Z * Z)%type.

(** The drawing calls the module makes.  [BlendedRectangle] stands for the
    three steps [overlay = frame.copy()], [cv2.rectangle(overlay, ...)],
    [cv2.addWeighted(overlay, alpha, frame, beta, gamma, frame)]. *)
Inductive cv2_call :=
| BlendedRectangle (pt1 pt2 : point) (c : color) (thickness : Z)
                   (alpha beta gamma : Q)
| PutText (text : string) (org : point) (font : Z) (scale : Q)
          (c : color) (thickness : Z)
| ArrowedLine (pt1 pt2 : point) (c : color) (thickness : Z)
| Circle (center : point) (radius : Z) (c : color) (thickness : Z)
| Line (pt1 pt2 : point) (c : color) (thickness : Z).

Record Frame := {
  shape : Z * Z;              (* (h, w) = frame.shape[:2] *)
  drawn : list cv2_call       (* calls applied so far, oldest first *)
}.

Definition is_arrow (c : cv2_call) : bool :=
  match c with ArrowedLine _ _ _ _ => true | _ => false end.

Definition is_geometry (c : cv2_call) : bool :=
  match c with
  | ArrowedLine _ _ _ _ | Circle _ _ _ _ | Line _ _ _ _ => true
  | _ => false
  end.

(** ** The visualizer instance *)

Record EventVisualizer := {
  banner_height : Z;
  banner_font : Z;
  banner_font_scale : Q;
  banner_thickness : Z;
  arrow_thickness : Z;
  active_pass_events : list PassEvent.t
}.

Definition FONT_HERSHEY_DUPLEX : Z := 2.

(** [__init__] *)
Definition init : EventVisualizer := {|
  banner_height := 120;
  banner_font := FONT_HERSHEY_DUPLEX;
  banner_font_scale := 3 # 2;
  banner_thickness := 3;
  arrow_thickness := 3;
  active_pass_events := []
|}.

Definition set_active (l : list PassEvent.t) (v : EventVisualizer)
  : EventVisualizer := {|
  banner_height := banner_height v;
  banner_font := banner_font v;
  banner_font_scale := banner_font_scale v;
  banner_thickness := banner_thickness v;
  arrow_thickness := arrow_thickness v;
  active_pass_events := l
|}.

(** ** The monad *)

Inductive exn := ZeroDivisionError | KeyError.

Inductive result (A : Type) :=
| Ok (a : A)
| Raise (e : exn).
Arguments Ok {A} a.
Arguments Raise {A} e.

Record machine := {
  canvas : Frame;
  self : EventVisualizer;
  tick_source : nat → Z;      (* the n-th reading of the host tick counter *)
  ticks_read : nat
}.

Definition M (A : Type) : Type := machine → result A * machine.

Definition ret {A} (a : A) : M A := fun m => (Ok a, m).

Definition bind {A B} (c : M A) (k : A → M B) : M B :=
  fun m =>
    match c m with
    | (Ok a, m') => k a m'
    | (Raise e, m') => (Raise e, m')
    end.

Definition raise {A} (e : exn) : M A := fun m => (Raise e, m).

Declare Scope py_scope.
Delimit Scope py_scope with py.
Notation "'let*' x ':=' c 'in' k" := (bind c (fun x => k))
  (at level 10, x name, c at level 100, k at level 200) : py_scope.
Notation "c ;;; k" := (bind c (fun _ => k))
  (at level 100, right associativity) : py_scope.
Open Scope py_scope.

Definition get_self : M EventVisualizer := fun m => (Ok (self m), m).

Definition get_shape : M (Z * Z) := fun m => (Ok (shape (canvas m)), m).

Definition put_active (l : list PassEvent.t) : M unit :=
  fun m => (Ok tt, {| canvas := canvas m;
                      self := set_active l (self m);
                      tick_source := tick_source m;
                      ticks_read := ticks_read m |}).

(** One OpenCV drawing call on the frame, in place. *)
Definition cv2_draw (c : cv2_call) : M unit :=
  fun m => (Ok tt, {| canvas := {| shape := shape (canvas m);
                                   drawn := drawn (canvas m) ++ [c] |};
                      self := self m;
                      tick_source := tick_source m;
                      ticks_read := ticks_read m |}).

(** [cv2.getTickCount()] *)
Definition getTickCount : M Z :=
  fun m => (Ok (tick_source m (ticks_read m)),
            {| canvas := canvas m;
               self := self m;
               tick_source := tick_source m;
               ticks_read := S (ticks_read m) |}).

(** [d[k]] on a dictionary. *)
Definition getitem {K V} `{Countable K} (d : gmap K V) (k : K) : M V :=
  match d !! k with
  | Some v => ret v
  | None => raise KeyError
  end.

(** [a / b] on two [int]s. *)
Definition truediv (a b : Z) : M Q :=
  if b =? 0 then raise ZeroDivisionError
  else ret (inject_Z a / inject_Z b)%Q.

(** [for x in l: body] *)
Fixpoint for_ {A} (l : list A) (body : A → M unit) : M unit :=
  match l with
  | [] => ret tt
  | x :: l' => body x ;;; for_ l' body
  end.

(** ** Stand-ins and example data *)

(** Concrete stand-ins for the two library functions the class calls and
    this development leaves abstract; they serve to run the methods on
    examples. *)
Definition text_size_20x22 (text : string) (font : Z) (scale : Q)
    (thickness : Z) : Z * Z :=
  (20 * Z.of_nat (String.length text), 22).

Definition sin_sign (x : Q) : Q := inject_Z (Z.sgn (Qnum x)).

Definition frame_720p : Frame := {| shape := (720, 1280); drawn := [] |}.

Definition ticks_slow (n : nat) : Z := Z.of_nat n.
Definition ticks_fast (n : nat) : Z := 10000 * (Z.of_nat n + 1).

(** A machine with an untouched frame and a new visualizer. *)
Definition fresh (src : nat → Z) : machine :=
  {| canvas := frame_720p; self := init; tick_source := src;
     ticks_read := 0 |}.

Definition pass_10_20 : PassEvent.t :=
  PassEvent.mk 10 20 "Pass: Player 7 to Player 9" 7 (Some 9).
Definition pass_12_22 : PassEvent.t :=
  PassEvent.mk 12 22 "Pass: Player 9 to Player 7" 9 (Some 7).
Definition pass_single_frame : PassEvent.t :=
  PassEvent.mk 5 5 "Pass: Player 7 to Player 9" 7 (Some 9).
Definition pass_to_zero : PassEvent.t :=
  PassEvent.mk 10 20 "Pass: Player 7 to Player 0" 7 (Some 0).
Definition pass_unknown_passer : PassEvent.t :=
  PassEvent.mk 10 20 "Pass: Player 8 to Player 9" 8 (Some 9).
Definition pass_unknown_receiver : PassEvent.t :=
  PassEvent.mk 10 20 "Pass: Player 7 to Player 4" 7 (Some 4).
Definition pass_no_end_row : PassEvent.t :=
  PassEvent.mk 10 21 "Pass: Player 7 to Player 9" 7 (Some 9).

Definition pressure_half : PressureEvent.t :=
  PressureEvent.mk 20 20 "Pressure: Player 9 on Player 0" 9 0 (1 # 2).
Definition pressure_unknown : PressureEvent.t :=
  PressureEvent.mk 20 20 "Pressure: Player 9 on Player 5" 9 5 (1 # 2).

Definition possession_1_2 : PossessionChangeEvent.t :=
  PossessionChangeEvent.mk 20 20 "Possession: Team 1 to Team 2" 1 2.

(** Player 7 at frame 10; players 9 and 0 at frame 20. *)
Definition tracks_example : Tracks :=
  {[ "players" :=
       {[ 10 := {[ 7 := {| position := (100 # 1, 201 # 2) |} ]};
          20 := {[ 9 := {| position := (300 # 1, 50 # 1) |};
                   0 := {| position := (1 # 1, 2 # 1) |} ]} ]} ]}.

Definition calls_10_to_21 : list (Z * list Event) :=
  [(10, [EPass pass_10_20]); (15, []); (20, []); (21, [])].
Definition calls_late_pass : list (Z * list Event) :=
  [(10, [EPass pass_10_20]); (30, [EPass pass_12_22])].
Definition calls_resupplied : list (Z * list Event) :=
  [(10, [EPass pass_10_20]); (25, [EPass pass_10_20])].

(** More example data. *)
Definition events_with_crash : list Event :=
  [EPass pass_10_20; EPass pass_single_frame; EPressure pressure_half].
Definition events_crash_first : list Event :=
  [EPass pass_single_frame; EPass pass_10_20].
Definition events_mixed : list Event :=
  [EPressure pressure_half; EPossession possession_1_2; EPass pass_10_20].
Definition pass_reversed : PassEvent.t :=
  PassEvent.mk 20 10 "Pass: Player 7 to Player 9" 7 (Some 9).
Definition events_reversed : list Event :=
  [EPass pass_reversed; EPass pass_10_20].

(** ** The methods of [EventVisualizer] *)

Section Visualizer.

(** [cv2.getTextSize(text, font, scale, thickness)[0]]: the font metrics
    of OpenCV. *)
Variable getTextSize : string → Z → Q → Z → Z * Z.

(** [np.sin] *)
Variable np_sin : Q → Q.

(** The calls one banner makes on a frame of shape [(h, w)]: what
    [draw_event_banner] below adds to the frame. *)
Definition banner_calls (v : EventVisualizer) (shp : Z * Z)
    (text : string) (c : color) : list cv2_call :=
  let w := shp.2 in
  let text_size :=
    getTextSize text (banner_font v) (banner_font_scale v)
                (banner_thickness v) in
  let text_x := (w - text_size.1) `div` 2 in
  let text_y := (banner_height v + text_size.2) `div` 2 in
  [ BlendedRectangle (0, 0) (w, banner_height v) (0, 0, 0) (-1)
                     (7 # 10) (3 # 10) 0;
    PutText text (text_x, text_y) (banner_font v) (banner_font_scale v)
            (0, 0, 0) (banner_thickness v + 2);
    PutText text (text_x, text_y) (banner_font v) (banner_font_scale v)
            c (banner_thickness v) ].

Definition draw_event_banner (text : string) (c : color) : M unit :=
  let* v := get_self in
  let* shp := get_shape in
  let w := shp.2 in
  (* semi-transparent overlay for the banner *)
  cv2_draw (BlendedRectangle (0, 0) (w, banner_height v) (0, 0, 0) (-1)
                             (7 # 10) (3 # 10) 0) ;;;
  (* text *)
  let text_size :=
    getTextSize text (banner_font v) (banner_font_scale v)
                (banner_thickness v) in
  let text_x := (w - text_size.1) `div` 2 in
  let text_y := (banner_height v + text_size.2) `div` 2 in
  (* text with contrasting border *)
  cv2_draw (PutText text (text_x, text_y) (banner_font v)
                    (banner_font_scale v) (0, 0, 0)
                    (banner_thickness v + 2)) ;;;
  cv2_draw (PutText text (text_x, text_y) (banner_font v)
                    (banner_font_scale v) c (banner_thickness v)).

(** [tuple(map(int, p['position']))] *)
Definition int_position (p : PlayerTrack) : point :=
  (py_int (position p).1, py_int (position p).2).

(** The guard of line 41,
    [event.receiver_id and event.receiver_id in tracks["players"][event.end_frame]]:
    [and] evaluates its right operand only when the left one is truthy. *)
Definition receiver_resolvable (event : PassEvent.t) (tracks : Tracks)
    : M bool :=
  if truthy (PassEvent.receiver_id event) then
    let* players := getitem tracks "players" in
    let* row := getitem players (PassEvent.end_frame event) in
    ret (match PassEvent.receiver_id event with
         | Some r => bool_decide (is_Some (row !! r))
         | None => false
         end)
  else ret false.

(** The arrow-head points of lines 49-63 are computed and never used, and
    their computation cannot fail; they are left out. *)
Definition draw_pass_event (event : PassEvent.t) (tracks : Tracks)
    : M unit :=
  let* v := get_self in
  let* players := getitem tracks "players" in
  let* row := getitem players (PassEvent.start_frame event) in
  let* passer := getitem row (PassEvent.passer_id event) in
  let* guard := receiver_resolvable event tracks in
  (if guard then
     let* players := getitem tracks "players" in
     let* row := getitem players (PassEvent.end_frame event) in
     let* receiver :=
       match PassEvent.receiver_id event with
       | Some r => getitem row r
       | None => raise KeyError
       end in
     let start_pos := int_position passer in
     let end_pos := int_position receiver in
     cv2_draw (ArrowedLine start_pos end_pos (0, 255, 0)
                           (arrow_thickness v))
   else ret tt) ;;;
  let banner_text :=
    "PASS IN PROGRESS: Player " +:+ py_str (PassEvent.passer_id event)
      +:+ " → Player " +:+ py_str_opt (PassEvent.receiver_id event) in
  draw_event_banner banner_text (0, 255, 0).

(** Line 87: the BGR colour of the pressure line. *)
Definition intensity_color (intensity : Q) : color :=
  (0, py_int (255 * (1 - intensity)), py_int (255 * intensity)).

Definition draw_pressure_event (event : PressureEvent.t) (tracks : Tracks)
    : M unit :=
  let* v := get_self in
  let* players := getitem tracks "players" in
  let* row := getitem players (PressureEvent.start_frame event) in
  let* pressured :=
    getitem row (PressureEvent.pressured_player_id event) in
  let* players := getitem tracks "players" in
  let* row := getitem players (PressureEvent.start_frame event) in
  let* pressuring :=
    getitem row (PressureEvent.pressuring_player_id event) in
  let start_pos := int_position pressuring in
  let end_pos := int_position pressured in
  (* pulsing circle around the pressured player *)
  let* ticks := getTickCount in
  let radius :=
    py_int (40 + 10 * np_sin (inject_Z ticks * (1 # 10000))) in
  cv2_draw (Circle end_pos radius (0, 0, 255) 2) ;;;
  (* pressure line with intensity-based colour *)
  cv2_draw (Line start_pos end_pos
                 (intensity_color (PressureEvent.pressure_intensity event))
                 (arrow_thickness v)) ;;;
  let banner_text :=
    "PRESSURE: Player "
      +:+ py_str (PressureEvent.pressuring_player_id event)
      +:+ " on Player "
      +:+ py_str (PressureEvent.pressured_player_id event) in
  draw_event_banner banner_text (0, 0, 255).

Definition draw_possession_change (event : PossessionChangeEvent.t)
    : M unit :=
  let banner_text :=
    "POSSESSION CHANGE: Team "
      +:+ py_str (PossessionChangeEvent.previous_team event)
      +:+ " → Team " +:+ py_str (PossessionChangeEvent.new_team event) in
  draw_event_banner banner_text (255, 165, 0).

(** [self.active_pass_events.append(event)] *)
Definition append_active (event : PassEvent.t) : M unit :=
  let* v := get_self in
  put_active (active_pass_events v ++ [event]).

(** The body of the loop of lines 111-118. *)
Definition draw_pass_banner (frame_num : Z) (pass_event : PassEvent.t)
    : M unit :=
  let* progress :=
    truediv (frame_num - PassEvent.start_frame pass_event)
            (PassEvent.end_frame pass_event
             - PassEvent.start_frame pass_event) in
  if Qle_bool 0 progress && Qle_bool progress 1 then
    draw_event_banner (PassEvent.description pass_event) (0, 128, 0)
  else ret tt.

(** The body of the loop of lines 121-133. *)
Definition draw_other_banner (event : Event) : M unit :=
  match event with
  | EPressure e =>
      draw_event_banner (PressureEvent.description e) (255, 0, 0)
  | EPossession e =>
      draw_event_banner (PossessionChangeEvent.description e) (0, 0, 255)
  | EPass _ => ret tt
  end.

(** [banner_offset] (line 110) is assigned and never read; it is left
    out. *)
Definition draw_events (events : list Event) (frame_num : Z)
    (tracks : Tracks) : M unit :=
  (* update active pass events *)
  let* v := get_self in
  put_active
    (List.filter (fun e => frame_num <=? PassEvent.end_frame e)
                 (active_pass_events v)) ;;;
  (* add new pass events *)
  for_ events (fun event =>
    match event with
    | EPass e => append_active e
    | _ => ret tt
    end) ;;;
  (* draw pass banners *)
  let* v := get_self in
  for_ (active_pass_events v) (draw_pass_banner frame_num) ;;;
  (* draw pressure and possession-change events *)
  for_ events draw_other_banner.

(** ** Vocabulary of the statements *)

(** The machine after the calls [cs] have been applied to its frame. *)
Definition paint (cs : list cv2_call) (m : machine) : machine :=
  {| canvas := {| shape := shape (canvas m);
                  drawn := drawn (canvas m) ++ cs |};
     self := self m;
     tick_source := tick_source m;
     ticks_read := ticks_read m |}.

(** The machine with [self.active_pass_events] replaced by [l]. *)
Definition with_active (l : list PassEvent.t) (m : machine) : machine :=
  {| canvas := canvas m;
     self := set_active l (self m);
     tick_source := tick_source m;
     ticks_read := ticks_read m |}.

(** The machine after one reading of the tick counter. *)
Definition ticked (m : machine) : machine :=
  {| canvas := canvas m;
     self := self m;
     tick_source := tick_source m;
     ticks_read := S (ticks_read m) |}.

(** The calls a method has added to the frame of [m], given the machine
    [m'] it ended in. *)
Definition new_calls (m m' : machine) : list cv2_call :=
  drop (length (drawn (canvas m))) (drawn (canvas m')).

(** The [PassEvent]s of an [events] list, in order. *)
Fixpoint passes_of (events : list Event) : list PassEvent.t :=
  match events with
  | [] => []
  | EPass e :: rest => e :: passes_of rest
  | _ :: rest => passes_of rest
  end.

(** ActiveEventSet as [draw_events] leaves it: the retained events that
    have not expired, then the passes of this call. *)
Definition absorbed (active : list PassEvent.t) (events : list Event)
    (frame_num : Z) : list PassEvent.t :=
  List.filter (fun e => frame_num <=? PassEvent.end_frame e) active
    ++ passes_of events.

(** The fractional progress of a frame within the window of a pass. *)
Definition progress_of (frame_num : Z) (e : PassEvent.t) : Q :=
  (inject_Z (frame_num - PassEvent.start_frame e)
   / inject_Z (PassEvent.end_frame e - PassEvent.start_frame e))%Q.

Definition in_progress (frame_num : Z) (e : PassEvent.t) : bool :=
  Qle_bool 0 (progress_of frame_num e)
  && Qle_bool (progress_of frame_num e) 1.

Definition degenerate (e : PassEvent.t) : Prop :=
  PassEvent.start_frame e = PassEvent.end_frame e.

(** The banners of the passes in progress, in the order of the list. *)
Definition pass_banners (v : EventVisualizer) (shp : Z * Z)
    (frame_num : Z) (l : list PassEvent.t) : list cv2_call :=
  flat_map (fun e =>
    if in_progress frame_num e
    then banner_calls v shp (PassEvent.description e) (0, 128, 0)
    else []) l.

(** The banners of the pressure and possession-change events. *)
Definition other_banner (v : EventVisualizer) (shp : Z * Z)
    (ev : Event) : list cv2_call :=
  match ev with
  | EPressure e =>
      banner_calls v shp (PressureEvent.description e) (255, 0, 0)
  | EPossession e =>
      banner_calls v shp (PossessionChangeEvent.description e)
                   (0, 0, 255)
  | EPass _ => []
  end.

Definition other_banners (v : EventVisualizer) (shp : Z * Z)
    (events : list Event) : list cv2_call :=
  flat_map (other_banner v shp) events.

(** The entry of a player in the track table at a frame, if any. *)
Definition track_of (tracks : Tracks) (frame_num id : Z)
    : option PlayerTrack :=
  row ← (players ← tracks !! "players"; players !! frame_num);
  row !! id.

Definition has_row (tracks : Tracks) (frame_num : Z) : Prop :=
  is_Some (players ← tracks !! "players"; players !! frame_num).

Definition pass_banner_text (e : PassEvent.t) : string :=
  "PASS IN PROGRESS: Player " +:+ py_str (PassEvent.passer_id e)
    +:+ " → Player " +:+ py_str_opt (PassEvent.receiver_id e).

Definition pressure_banner_text (e : PressureEvent.t) : string :=
  "PRESSURE: Player " +:+ py_str (PressureEvent.pressuring_player_id e)
    +:+ " on Player " +:+ py_str (PressureEvent.pressured_player_id e).




(** A sequence of [draw_events] calls on one visualizer, each given as
    its [(frame_num, events)]; a caller that catches an exception of one
    call goes on with the state that call left. *)
Definition after_call (tracks : Tracks) (m : machine)
    (call : Z * list Event) : machine :=
  (draw_events call.2 call.1 tracks m).2.

Definition after_calls (tracks : Tracks) (calls : list (Z * list Event))
    (m : machine) : machine :=
  fold_left (after_call tracks) calls m.

Fixpoint nondecreasing (l : list Z) : Prop :=
  match l with
  | [] => True
  | x :: rest =>
      match rest with
      | [] => True
      | y :: _ => x <= y ∧ nondecreasing rest
      end
  end.

(** Two machines that differ at most in the host tick counter. *)
Definition same_view (m1 m2 : machine) : Prop :=
  canvas m1 = canvas m2 ∧ self m1 = self m2.

(** A computation whose outcome, frame and visualizer state do not depend
    on the tick counter. *)
Definition clock_free {A} (c : M A) : Prop :=
  ∀ m1 m2, same_view m1 m2 →
    (c m1).1 = (c m2).1 ∧ same_view (c m1).2 (c m2).2.

(** The configuration that [__init__] sets and no method assigns. *)
Definition config (v : EventVisualizer) : Z * Z * Q * Z * Z :=
  (banner_height v, banner_font v, banner_font_scale v, banner_thickness v,
   arrow_thickness v).

Definition is_pass (ev : Event) : bool :=
  match ev with EPass _ => true | _ => false end.

(** The calls of a sequence of banners, each given by its text and its
    colour, on a frame of shape [shp]. *)
Definition banners (v : EventVisualizer) (shp : Z * Z)
    (l : list (string * color)) : list cv2_call :=
  flat_map (fun tc => banner_calls v shp tc.1 tc.2) l.

(** [x] lies between [a] and [b], in either order. *)
Definition between (a b x : Z) : bool :=
  (Z.min a b <=? x) && (x <=? Z.max a b).

(** [m'] is [m] with calls added to the frame: same shape, the earlier
    calls kept, the configuration and the tick source untouched. *)
Definition extends (m m' : machine) : Prop :=
  shape (canvas m') = shape (canvas m)
  ∧ drawn (canvas m') = drawn (canvas m) ++ new_calls m m'
  ∧ config (self m') = config (self m)
  ∧ tick_source m' = tick_source m.

(** ** Running the monad *)

Lemma paint_nil m : paint [] m = m.
Proof.
  destruct m as [[shp cs] v src n]; unfold paint; simpl.
  by rewrite app_nil_r.
Qed.

Lemma paint_paint a b m : paint b (paint a m) = paint (a ++ b) m.
Proof. unfold paint; simpl. by rewrite app_assoc. Qed.

Lemma new_calls_paint cs m : new_calls m (paint cs m) = cs.
Proof. unfold new_calls; simpl. apply drop_app_length. Qed.

Lemma paint_with_active cs l m :
  paint cs (with_active l m) = with_active l (paint cs m).
Proof. reflexivity. Qed.

Lemma bind_Ok {A B} (c : M A) (k : A → M B) m a m' :
  c m = (Ok a, m') → bind c k m = k a m'.
Proof. intros E. unfold bind. by rewrite E. Qed.

Lemma bind_Raise {A B} (c : M A) (k : A → M B) m e m' :
  c m = (Raise e, m') → bind c k m = (Raise e, m').
Proof. intros E. unfold bind. by rewrite E. Qed.

Lemma run_draw_event_banner text c m :
  draw_event_banner text c m
  = (Ok tt, paint (banner_calls (self m) (shape (canvas m)) text c) m).
Proof.
  unfold draw_event_banner, banner_calls, bind, get_self, get_shape,
    cv2_draw, paint; simpl.
  by rewrite <- !app_assoc.
Qed.

(** *** The three loops of [draw_events] *)

Lemma run_absorb_loop events m :
  for_ events (fun event =>
    match event with
    | EPass e => append_active e
    | _ => ret tt
    end) m
  = (Ok tt,
     with_active (active_pass_events (self m) ++ passes_of events) m).
Proof.
  revert m. induction events as [|ev rest IH]; intros m; simpl.
  - unfold ret. f_equal. destruct m as [fr [] src n]; unfold with_active;
      simpl. by rewrite app_nil_r.
  - destruct ev as [e| |]; unfold bind; simpl.
    + rewrite IH. unfold with_active; simpl. by rewrite <- app_assoc.
    + apply IH.
    + apply IH.
Qed.

Lemma run_draw_pass_banner frame_num e m :
  ¬ degenerate e →
  draw_pass_banner frame_num e m
  = (Ok tt,
     paint (if in_progress frame_num e
            then banner_calls (self m) (shape (canvas m))
                              (PassEvent.description e) (0, 128, 0)
            else []) m).
Proof.
  intros Hnd. unfold draw_pass_banner, truediv, degenerate in *.
  destruct (Z.eqb_spec (PassEvent.end_frame e - PassEvent.start_frame e) 0)
    as [E|E]; [lia|].
  unfold bind, ret; simpl. fold (progress_of frame_num e).
  fold (in_progress frame_num e).
  destruct (in_progress frame_num e).
  - apply run_draw_event_banner.
  - by rewrite paint_nil.
Qed.

Lemma run_draw_pass_banner_degenerate frame_num e m :
  degenerate e →
  draw_pass_banner frame_num e m = (Raise ZeroDivisionError, m).
Proof.
  intros Hd. unfold draw_pass_banner, truediv, degenerate in *.
  by replace (PassEvent.end_frame e - PassEvent.start_frame e) with 0
    by lia.
Qed.

Lemma degenerate_dec e : {degenerate e} + {¬ degenerate e}.
Proof. unfold degenerate. apply Z.eq_dec. Qed.

Lemma run_pass_loop frame_num l m :
  Forall (fun e => ¬ degenerate e) l →
  for_ l (draw_pass_banner frame_num) m
  = (Ok tt,
     paint (pass_banners (self m) (shape (canvas m)) frame_num l) m).
Proof.
  intros Hl. revert m. induction Hl as [|e rest He _ IH]; intros m; simpl.
  - by rewrite paint_nil.
  - erewrite bind_Ok by (by apply run_draw_pass_banner).
    rewrite IH; simpl. by rewrite paint_paint.
Qed.

Lemma pass_loop_raises frame_num l m :
  Exists degenerate l →
  (for_ l (draw_pass_banner frame_num) m).1 = Raise ZeroDivisionError.
Proof.
  revert m. induction l as [|e rest IH]; intros m Hex.
  - by apply Exists_nil in Hex.
  - simpl. destruct (degenerate_dec e) as [Hd|Hnd].
    + erewrite bind_Raise by (by apply run_draw_pass_banner_degenerate).
      reflexivity.
    + erewrite bind_Ok by (by apply run_draw_pass_banner).
      apply IH. apply Exists_cons in Hex as [?|?]; [done|assumption].
Qed.

(** Whether it raises or not, the pass loop only paints. *)
Lemma pass_loop_paints frame_num l m :
  ∃ cs, (for_ l (draw_pass_banner frame_num) m).2 = paint cs m.
Proof.
  revert m. induction l as [|e rest IH]; intros m; simpl.
  - exists []. by rewrite paint_nil.
  - destruct (degenerate_dec e) as [Hd|Hnd].
    + erewrite bind_Raise by (by apply run_draw_pass_banner_degenerate).
      exists []. by rewrite paint_nil.
    + erewrite bind_Ok by (by apply run_draw_pass_banner).
      edestruct IH as [cs ->]. rewrite paint_paint. by eexists.
Qed.

Lemma run_other_loop events m :
  for_ events draw_other_banner m
  = (Ok tt, paint (other_banners (self m) (shape (canvas m)) events) m).
Proof.
  revert m. induction events as [|ev rest IH]; intros m; simpl.
  - by rewrite paint_nil.
  - destruct ev as [e|e|e]; simpl.
    + unfold bind, ret. rewrite IH. reflexivity.
    + erewrite bind_Ok by apply run_draw_event_banner.
      rewrite IH; simpl. by rewrite paint_paint.
    + erewrite bind_Ok by apply run_draw_event_banner.
      rewrite IH; simpl. by rewrite paint_paint.
Qed.

(** [draw_events] as the composition of its four steps. *)
Lemma draw_events_steps events frame_num tracks m :
  draw_events events frame_num tracks m
  = let active' :=
      absorbed (active_pass_events (self m)) events frame_num in
    match for_ active' (draw_pass_banner frame_num)
               (with_active active' m) with
    | (Ok _, m') => for_ events draw_other_banner m'
    | (Raise e, m') => (Raise e, m')
    end.
Proof.
  unfold draw_events.
  unfold bind at 1. unfold get_self at 1.
  unfold bind at 1. unfold put_active at 1.
  unfold bind at 1. rewrite run_absorb_loop.
  unfold bind at 1. unfold get_self at 1.
  reflexivity.
Qed.

(** The state [draw_events] leaves, whether it raises or not. *)
Lemma draw_events_state events frame_num tracks m :
  ∃ cs,
    (draw_events events frame_num tracks m).2
    = paint cs
        (with_active
           (absorbed (active_pass_events (self m)) events frame_num) m).
Proof.
  rewrite draw_events_steps. cbv zeta.
  set (active' := absorbed _ _ _).
  destruct (pass_loop_paints frame_num active' (with_active active' m))
    as [cs Hcs].
  destruct (for_ active' _ _) as [[[]|e] m'] eqn:E; simpl in Hcs; subst m'.
  - rewrite run_other_loop; simpl. rewrite paint_paint. by eexists.
  - by eexists.
Qed.

Lemma in_passes_of e events : In e (passes_of events) ↔ In (EPass e) events.
Proof.
  induction events as [|ev rest IH]; simpl; [tauto|].
  destruct ev as [e'| |]; simpl; rewrite IH.
  - split; (intros [E|?]; [left; congruence|by right]).
  - split; [by right|]. by intros [?|?].
  - split; [by right|]. by intros [?|?].
Qed.

Lemma in_absorbed e active events frame_num :
  In e (absorbed active events frame_num)
  ↔ (In e active ∧ frame_num <= PassEvent.end_frame e)
    ∨ In (EPass e) events.
Proof.
  unfold absorbed. rewrite in_app_iff, filter_In, in_passes_of.
  by rewrite Z.leb_le.
Qed.

Lemma active_after_draw_events events frame_num tracks m :
  active_pass_events (self (draw_events events frame_num tracks m).2)
  = absorbed (active_pass_events (self m)) events frame_num.
Proof.
  destruct (draw_events_state events frame_num tracks m) as [cs ->].
  reflexivity.
Qed.

(** The whole call, when no tracked pass has an empty window. *)
Lemma run_draw_events events frame_num tracks m :
  let active' := absorbed (active_pass_events (self m)) events frame_num in
  Forall (fun e => ¬ degenerate e) active' →
  draw_events events frame_num tracks m
  = (Ok tt,
     paint (pass_banners (self m) (shape (canvas m)) frame_num active'
            ++ other_banners (self m) (shape (canvas m)) events)
           (with_active active' m)).
Proof.
  intros active' Hnd. rewrite draw_events_steps. cbv zeta.
  fold active'. rewrite run_pass_loop by assumption.
  rewrite run_other_loop; simpl. by rewrite paint_paint.
Qed.

(** ** The driver [draw_events] *)

(** C1 (the code departs from the claim).  A pass whose window is a single
    frame, [start_frame = end_frame], is not special-cased: as soon as it
    is tracked (retained from an earlier call or supplied by this one),
    line 112 divides by [end_frame - start_frame = 0] and [draw_events]
    raises [ZeroDivisionError], whatever [frame_num] is. *)
Theorem degenerate_window_raises events frame_num tracks m e :
  In e (absorbed (active_pass_events (self m)) events frame_num) →
  degenerate e →
  (draw_events events frame_num tracks m).1 = Raise ZeroDivisionError.
Proof.
  intros Hin Hd. rewrite draw_events_steps. cbv zeta.
  set (active' := absorbed _ _ _) in *.
  assert (Exists degenerate active') as Hex
    by (apply List.Exists_exists; exists e; split; assumption).
  pose proof (pass_loop_raises frame_num active' (with_active active' m)
                Hex) as Hr.
  destruct (for_ active' _ _) as [[[]|x] m'] eqn:E; simpl in Hr.
  - discriminate.
  - exact Hr.
Qed.

(** C7.  Every [PassEvent] of [events] is appended to
    [active_pass_events], in input order and with no de-duplication: the
    list after the call is the pruned list followed by all the passes of
    the input, so it has one more entry per pass supplied, also for a pass
    that is tracked already.  This holds whether the call then raises or
    not. *)
Theorem passes_appended_without_dedup events frame_num tracks m :
  let pruned :=
    List.filter (fun e => frame_num <=? PassEvent.end_frame e)
                (active_pass_events (self m)) in
  let after :=
    active_pass_events (self (draw_events events frame_num tracks m).2) in
  after = pruned ++ passes_of events
  ∧ length after = (length pruned + length (passes_of events))%nat
  ∧ (∀ e, In e pruned → In (EPass e) events →
       ∃ l1 l2 l3, after = l1 ++ e :: l2 ++ e :: l3).
Proof.
  cbv zeta. rewrite active_after_draw_events. unfold absorbed.
  split; [reflexivity|]. split; [apply length_app|].
  intros e Hp He. apply in_passes_of in He.
  apply in_split in Hp as (l1 & l2 & ->).
  apply in_split in He as (l3 & l4 & ->).
  exists l1, (l2 ++ l3), l4. by rewrite <- !app_assoc.
Qed.

Lemma truediv_progress frame_num e m :
  ¬ degenerate e →
  truediv (frame_num - PassEvent.start_frame e)
          (PassEvent.end_frame e - PassEvent.start_frame e) m
  = (Ok (progress_of frame_num e), m).
Proof.
  intros Hnd. unfold truediv, degenerate in *.
  destruct (Z.eqb_spec (PassEvent.end_frame e - PassEvent.start_frame e) 0)
    as [E|E]; [lia|reflexivity].
Qed.

Lemma in_progress_iff frame_num e :
  in_progress frame_num e = true
  ↔ (0 <= progress_of frame_num e)%Q ∧ (progress_of frame_num e <= 1)%Q.
Proof.
  unfold in_progress. by rewrite andb_true_iff, !Qle_bool_iff.
Qed.

(** For a proper window the progress lies in [0, 1] exactly on the frames
    of the window. *)
Lemma progress_in_window frame_num e :
  PassEvent.start_frame e < PassEvent.end_frame e →
  ((0 <= progress_of frame_num e)%Q ∧ (progress_of frame_num e <= 1)%Q)
  ↔ PassEvent.start_frame e <= frame_num <= PassEvent.end_frame e.
Proof.
  intros Hlt. unfold progress_of.
  destruct (PassEvent.end_frame e - PassEvent.start_frame e)
    as [|d|d] eqn:Ed; try lia.
  unfold Qle, Qdiv, Qmult, Qinv, inject_Z; simpl.
  rewrite !Z.mul_1_r. lia.
Qed.

(** The banner loop on a pass with a proper window.  For a tracked pass
    with [start_frame < end_frame], the iteration of the banner loop of [draw_events] computes the progress
    [(frame_num - start_frame) / (end_frame - start_frame)] and draws the
    banner of the pass, in [(0, 128, 0)], exactly when that value lies in
    [0, 1], which are the frames of the window; a call in which no tracked
    pass has an empty window draws, for the passes, exactly these banners
    in the order of the list; and at frame 15 of the window [10, 20] the
    progress is 1/2. *)
Theorem pass_banner_follows_progress frame_num e :
  PassEvent.start_frame e < PassEvent.end_frame e →
  let progress := progress_of frame_num e in
  (∀ m, truediv (frame_num - PassEvent.start_frame e)
                (PassEvent.end_frame e - PassEvent.start_frame e) m
        = (Ok progress, m))
  ∧ (∀ m, draw_pass_banner frame_num e m
          = (Ok tt,
             paint (if Qle_bool 0 progress && Qle_bool progress 1
                    then banner_calls (self m) (shape (canvas m))
                                      (PassEvent.description e)
                                      (0, 128, 0)
                    else []) m))
  ∧ (Qle_bool 0 progress && Qle_bool progress 1 = true
     ↔ (0 <= progress)%Q ∧ (progress <= 1)%Q)
  ∧ ((0 <= progress)%Q ∧ (progress <= 1)%Q
     ↔ PassEvent.start_frame e <= frame_num <= PassEvent.end_frame e)
  ∧ (∀ events tracks m,
       let active' :=
         absorbed (active_pass_events (self m)) events frame_num in
       In e active' →
       Forall (fun e' => ¬ degenerate e') active' →
       (draw_events events frame_num tracks m).1 = Ok tt
       ∧ new_calls m (draw_events events frame_num tracks m).2
         = flat_map (fun e' =>
             if Qle_bool 0 (progress_of frame_num e')
                && Qle_bool (progress_of frame_num e') 1
             then banner_calls (self m) (shape (canvas m))
                               (PassEvent.description e') (0, 128, 0)
             else []) active'
           ++ other_banners (self m) (shape (canvas m)) events)
  ∧ (PassEvent.start_frame e = 10 → PassEvent.end_frame e = 20 →
     Qred (progress_of 15 e) = 1 # 2).
Proof.
  intros Hlt progress. subst progress.
  assert (¬ degenerate e) as Hnd by (unfold degenerate; lia).
  split; [|split; [|split; [|split; [|split]]]].
  - intros m. by apply truediv_progress.
  - intros m. by apply run_draw_pass_banner.
  - apply in_progress_iff.
  - by apply progress_in_window.
  - intros events tracks m active' _ Hall.
    rewrite run_draw_events by assumption. fold active'. simpl.
    split; [reflexivity|]. rewrite paint_with_active.
    unfold new_calls; simpl. by rewrite drop_app_length.
  - intros Hs He. unfold progress_of. by rewrite Hs, He.
Qed.

Lemma banner_calls_no_geometry v shp text c :
  Forall (fun call => is_geometry call = false) (banner_calls v shp text c).
Proof. unfold banner_calls. repeat constructor. Qed.

Lemma pass_banners_no_geometry v shp frame_num l :
  Forall (fun call => is_geometry call = false)
         (pass_banners v shp frame_num l).
Proof.
  induction l as [|e rest IH]; simpl; [constructor|].
  apply Forall_app; split; [|exact IH].
  destruct (in_progress frame_num e);
    [apply banner_calls_no_geometry|constructor].
Qed.

Lemma other_banners_no_geometry v shp events :
  Forall (fun call => is_geometry call = false)
         (other_banners v shp events).
Proof.
  induction events as [|ev rest IH]; simpl; [constructor|].
  apply Forall_app; split; [|exact IH].
  destruct ev; [constructor|apply banner_calls_no_geometry..].
Qed.

Lemma other_banners_split v shp events ev :
  In ev events →
  ∃ before after,
    other_banners v shp events
    = before ++ other_banner v shp ev ++ after.
Proof.
  intros Hin. apply in_split in Hin as (l1 & l2 & ->).
  exists (other_banners v shp l1), (other_banners v shp l2).
  unfold other_banners. by rewrite flat_map_app.
Qed.

(** C6 (as the code has it).  As long as no tracked pass has an empty
    window, [draw_events] draws for every [PressureEvent] and every
    [PossessionChangeEvent] of [events] the banner of its [description]
    (in [(255, 0, 0)] and [(0, 0, 255)]), whatever [frame_num] and the
    tracked passes are, and it draws nothing but banners: no line, circle
    or arrow is added to the frame. *)
Theorem other_events_get_banner_only events frame_num tracks m :
  let active' := absorbed (active_pass_events (self m)) events frame_num in
  let r := draw_events events frame_num tracks m in
  Forall (fun e => ¬ degenerate e) active' →
  r.1 = Ok tt
  ∧ (∀ e, In (EPressure e) events →
       ∃ before after,
         new_calls m r.2
         = before
           ++ banner_calls (self m) (shape (canvas m))
                           (PressureEvent.description e) (255, 0, 0)
           ++ after)
  ∧ (∀ e, In (EPossession e) events →
       ∃ before after,
         new_calls m r.2
         = before
           ++ banner_calls (self m) (shape (canvas m))
                           (PossessionChangeEvent.description e)
                           (0, 0, 255)
           ++ after)
  ∧ Forall (fun call => is_geometry call = false) (new_calls m r.2).
Proof.
  intros active' r Hnd. subst r.
  rewrite run_draw_events by assumption. fold active'. simpl.
  rewrite paint_with_active.
  assert (∀ cs, new_calls m (with_active active' (paint cs m)) = cs)
    as -> by (intros cs; unfold new_calls; simpl; apply drop_app_length).
  split; [reflexivity|]. split; [|split].
  - intros e Hin.
    destruct (other_banners_split (self m) (shape (canvas m)) _ _ Hin)
      as (b & a & ->). simpl.
    eexists (_ ++ b), a. by rewrite <- app_assoc.
  - intros e Hin.
    destruct (other_banners_split (self m) (shape (canvas m)) _ _ Hin)
      as (b & a & ->). simpl.
    eexists (_ ++ b), a. by rewrite <- app_assoc.
  - apply Forall_app; split;
      [apply pass_banners_no_geometry|apply other_banners_no_geometry].
Qed.

(** *** Independence from the tick counter *)

Lemma clock_free_ret {A} (a : A) : clock_free (ret a).
Proof. intros m1 m2 Hv. by split. Qed.

Lemma clock_free_raise {A} e : clock_free (@raise A e).
Proof. intros m1 m2 Hv. by split. Qed.

Lemma clock_free_bind {A B} (c : M A) (k : A → M B) :
  clock_free c → (∀ a, clock_free (k a)) → clock_free (bind c k).
Proof.
  intros Hc Hk m1 m2 Hv. unfold bind.
  destruct (Hc m1 m2 Hv) as [Hr Hv'].
  destruct (c m1) as [[a1|e1] m1'], (c m2) as [[a2|e2] m2'];
    simpl in *; try discriminate.
  - injection Hr as ->. by apply Hk.
  - injection Hr as ->. by split.
Qed.

Lemma clock_free_get_self : clock_free get_self.
Proof.
  intros m1 m2 [Hc Hs]. unfold get_self; simpl. rewrite Hs. by split.
Qed.

Lemma clock_free_get_shape : clock_free get_shape.
Proof.
  intros m1 m2 [Hc Hs]. unfold get_shape; simpl. rewrite Hc. by split.
Qed.

Lemma clock_free_put_active l : clock_free (put_active l).
Proof.
  intros m1 m2 [Hc Hs]. unfold put_active, same_view; simpl.
  by rewrite Hs.
Qed.

Lemma clock_free_cv2_draw c : clock_free (cv2_draw c).
Proof.
  intros m1 m2 [Hc Hs]. unfold cv2_draw, same_view; simpl.
  by rewrite Hc.
Qed.

Lemma clock_free_truediv a b : clock_free (truediv a b).
Proof.
  unfold truediv. destruct (b =? 0);
    [apply clock_free_raise|apply clock_free_ret].
Qed.

Lemma clock_free_for {A} (l : list A) (body : A → M unit) :
  (∀ x, clock_free (body x)) → clock_free (for_ l body).
Proof.
  intros Hb. induction l as [|x rest IH]; simpl.
  - apply clock_free_ret.
  - apply clock_free_bind; [apply Hb|intros _; exact IH].
Qed.

Create HintDb clock discriminated.
Hint Resolve clock_free_ret clock_free_raise clock_free_bind
  clock_free_get_self clock_free_get_shape clock_free_put_active
  clock_free_cv2_draw clock_free_truediv clock_free_for : clock.

Lemma clock_free_draw_event_banner text c :
  clock_free (draw_event_banner text c).
Proof. unfold draw_event_banner. auto 10 with clock. Qed.

Hint Resolve clock_free_draw_event_banner : clock.

Lemma clock_free_draw_events events frame_num tracks :
  clock_free (draw_events events frame_num tracks).
Proof.
  unfold draw_events.
  apply clock_free_bind; [auto with clock|intros v].
  apply clock_free_bind; [auto with clock|intros _].
  apply clock_free_bind.
  { apply clock_free_for. intros [e| |]; unfold append_active;
      auto with clock. }
  intros _. apply clock_free_bind; [auto with clock|intros v'].
  apply clock_free_bind.
  { apply clock_free_for. intros e. unfold draw_pass_banner.
    apply clock_free_bind; [auto with clock|intros q].
    destruct (_ && _); auto with clock. }
  intros _. apply clock_free_for. intros [e|e|e]; simpl; auto with clock.
Qed.

(** C9.  [draw_events] is deterministic: two calls with the same frame,
    the same visualizer state (so the same ActiveEventSet), the same
    [events], [frame_num] and [tracks] end with the same outcome, the same
    frame and the same visualizer state, however the host tick counter
    behaves; [draw_events] never reads it. *)
Theorem draw_events_deterministic events frame_num tracks m1 m2 :
  canvas m1 = canvas m2 →
  self m1 = self m2 →
  let r1 := draw_events events frame_num tracks m1 in
  let r2 := draw_events events frame_num tracks m2 in
  r1.1 = r2.1
  ∧ canvas r1.2 = canvas r2.2
  ∧ active_pass_events (self r1.2) = active_pass_events (self r2.2).
Proof.
  intros Hc Hs r1 r2.
  destruct (clock_free_draw_events events frame_num tracks m1 m2)
    as (Hr & Hc' & Hs'); [by split|].
  subst r1 r2. by rewrite Hr, Hc', Hs'.
Qed.

(** *** Sequences of calls *)

Lemma active_after_call tracks m frame_num events :
  active_pass_events (self (after_call tracks m (frame_num, events)))
  = absorbed (active_pass_events (self m)) events frame_num.
Proof. apply active_after_draw_events. Qed.

Lemma after_calls_snoc tracks calls call m :
  after_calls tracks (calls ++ [call]) m
  = after_call tracks (after_calls tracks calls m) call.
Proof. unfold after_calls. by rewrite fold_left_app. Qed.

Lemma after_calls_take_S tracks calls j call m :
  calls !! j = Some call →
  after_calls tracks (take (S j) calls) m
  = after_call tracks (after_calls tracks (take j calls) m) call.
Proof.
  intros Hj. erewrite take_S_r by eassumption. apply after_calls_snoc.
Qed.

Lemma nondecreasing_head x l y :
  nondecreasing (x :: l) → In y l → x <= y.
Proof.
  revert x. induction l as [|z rest IH]; intros x Hs Hin; [done|].
  destruct Hs as [Hxz Hs]. destruct Hin as [->|Hin]; [done|].
  specialize (IH z Hs Hin). lia.
Qed.

Lemma nondecreasing_tail x l : nondecreasing (x :: l) → nondecreasing l.
Proof. destruct l; [done|]. by intros [_ ?]. Qed.

Lemma nondecreasing_lookup l i j x y :
  nondecreasing l → l !! i = Some x → l !! j = Some y → (i ≤ j)%nat →
  x <= y.
Proof.
  revert i j. induction l as [|a rest IH]; intros i j Hs Hi Hj Hle;
    [done|].
  destruct i as [|i], j as [|j]; simpl in *; try lia.
  - injection Hi as ->. injection Hj as ->. lia.
  - injection Hi as ->. eapply nondecreasing_head; [eassumption|].
    apply list_elem_of_In. by eapply list_elem_of_lookup_2.
  - eapply IH; eauto using nondecreasing_tail. lia.
Qed.

(** A pass supplied by call [i] is tracked after every call [j ≥ i] whose
    frame number, and those of the calls in between, do not exceed its
    [end_frame]. *)
Lemma tracked_from_supply tracks calls p i f0 evs0 m :
  calls !! i = Some (f0, evs0) → In (EPass p) evs0 →
  ∀ j, (i ≤ j)%nat →
    (∀ k call, (i < k ≤ j)%nat → calls !! k = Some call →
       call.1 <= PassEvent.end_frame p) →
    is_Some (calls !! j) →
    In p (active_pass_events
            (self (after_calls tracks (take (S j) calls) m))).
Proof.
  intros Hi Hp j Hle. induction Hle as [|j Hle IH]; intros Hk [call Hj].
  - erewrite after_calls_take_S by exact Hi.
    rewrite active_after_call, in_absorbed. by right.
  - erewrite after_calls_take_S by eassumption. destruct call as [f evs].
    rewrite active_after_call, in_absorbed. left. split.
    + apply IH.
      * intros k c Hk'. apply Hk. lia.
      * apply lookup_lt_is_Some. apply lookup_lt_Some in Hj. lia.
    + apply (Hk (S j) (f, evs)); [lia|assumption].
Qed.

(** C2 (as the code has it).  In a sequence of [draw_events] calls with
    non-decreasing frame numbers, a pass supplied in the [events] of call
    [i] is in [active_pass_events] after that call and after every later
    call [j] whose frame number is at most its [end_frame]; after a call
    whose frame number exceeds its [end_frame] it is in the list only if
    that call's [events] supply it again; and after each call every
    member has [end_frame >= frame_num] or is a pass of that call's
    [events]. *)
Theorem active_set_membership tracks calls i j f0 evs0 f evs p m :
  nondecreasing (map fst calls) →
  calls !! i = Some (f0, evs0) →
  In (EPass p) evs0 →
  calls !! j = Some (f, evs) →
  (i ≤ j)%nat →
  let active_j :=
    active_pass_events (self (after_calls tracks (take (S j) calls) m)) in
  (i = j ∨ f <= PassEvent.end_frame p → In p active_j)
  ∧ (PassEvent.end_frame p < f → ¬ In (EPass p) evs → ¬ In p active_j)
  ∧ (∀ q, In q active_j →
       f <= PassEvent.end_frame q ∨ In (EPass q) evs).
Proof.
  intros Hs Hi Hp Hj Hle active_j. split; [|split].
  - intros Hcase. subst active_j.
    apply (tracked_from_supply tracks calls p i f0 evs0 m Hi Hp j Hle);
      [|by eexists].
    intros k [fk ek] Hk Hlk. simpl.
    destruct Hcase as [->|Hf]; [lia|].
    etrans; [|exact Hf].
    apply (nondecreasing_lookup (map fst calls) k j); [assumption|..].
    + by rewrite list_lookup_fmap, Hlk.
    + by rewrite list_lookup_fmap, Hj.
    + lia.
  - intros Hexp Hns. subst active_j.
    erewrite after_calls_take_S by eassumption.
    rewrite active_after_call, in_absorbed. intros [[_ ?]|?]; [lia|done].
  - intros q. subst active_j.
    erewrite after_calls_take_S by eassumption.
    rewrite active_after_call, in_absorbed. intros [[_ ?]|?]; auto.
Qed.

(** ** The per-event routines *)

(** What [draw_pass_event] does, by cases on the lookups it makes. *)
Lemma run_draw_pass_event event tracks m :
  let banner :=
    banner_calls (self m) (shape (canvas m)) (pass_banner_text event)
                 (0, 255, 0) in
  draw_pass_event event tracks m
  = match track_of tracks (PassEvent.start_frame event)
                   (PassEvent.passer_id event) with
    | None => (Raise KeyError, m)
    | Some passer =>
        if truthy (PassEvent.receiver_id event) then
          match players ← tracks !! "players";
                players !! PassEvent.end_frame event with
          | None => (Raise KeyError, m)
          | Some row =>
              match r ← PassEvent.receiver_id event; row !! r with
              | Some receiver =>
                  (Ok tt,
                   paint (ArrowedLine (int_position passer)
                                      (int_position receiver) (0, 255, 0)
                                      (arrow_thickness (self m))
                          :: banner) m)
              | None => (Ok tt, paint banner m)
              end
          end
        else (Ok tt, paint banner m)
    end.
Proof.
  cbv zeta.
  unfold draw_pass_event, receiver_resolvable, track_of, bind, getitem,
    get_self, ret, raise. fold (pass_banner_text event).
  destruct (tracks !! "players") as [players|]; simpl; [|done].
  destruct (players !! PassEvent.start_frame event) as [row|]; simpl;
    [|done].
  destruct (row !! PassEvent.passer_id event) as [passer|]; simpl;
    [|done].
  destruct (PassEvent.receiver_id event) as [r|]; simpl;
    [|apply run_draw_event_banner].
  destruct (r =? 0); simpl; [apply run_draw_event_banner|].
  destruct (players !! PassEvent.end_frame event) as [row'|]; simpl;
    [|done].
  destruct (row' !! r) as [receiver|] eqn:Er; simpl.
  - rewrite run_draw_event_banner; simpl.
    unfold paint; simpl. by rewrite <- app_assoc.
  - apply run_draw_event_banner.
Qed.

(** What [draw_pressure_event] does, by cases on its lookups. *)
Lemma run_draw_pressure_event event tracks m :
  draw_pressure_event event tracks m
  = match track_of tracks (PressureEvent.start_frame event)
                   (PressureEvent.pressured_player_id event),
          track_of tracks (PressureEvent.start_frame event)
                   (PressureEvent.pressuring_player_id event) with
    | Some pressured, Some pressuring =>
        (Ok tt,
         paint
           (Circle (int_position pressured)
                   (py_int (40 + 10 * np_sin
                              (inject_Z (tick_source m (ticks_read m))
                               * (1 # 10000))))
                   (0, 0, 255) 2
            :: Line (int_position pressuring) (int_position pressured)
                    (intensity_color
                       (PressureEvent.pressure_intensity event))
                    (arrow_thickness (self m))
            :: banner_calls (self m) (shape (canvas m))
                            (pressure_banner_text event) (0, 0, 255))
           (ticked m))
    | _, _ => (Raise KeyError, m)
    end.
Proof.
  unfold draw_pressure_event, track_of, bind, getitem, get_self, ret,
    raise. fold (pressure_banner_text event).
  destruct (tracks !! "players") as [players|]; simpl; [|done].
  destruct (players !! PressureEvent.start_frame event) as [row|]; simpl;
    [|done].
  destruct (row !! PressureEvent.pressured_player_id event)
    as [pressured|]; simpl; [|done].
  destruct (row !! PressureEvent.pressuring_player_id event)
    as [pressuring|]; simpl; [|done].
  unfold cv2_draw; simpl. rewrite run_draw_event_banner; simpl.
  unfold paint, ticked; simpl. by rewrite <- !app_assoc.
Qed.

Lemma run_draw_possession_change event m :
  draw_possession_change event m
  = (Ok tt,
     paint (banner_calls (self m) (shape (canvas m))
              ("POSSESSION CHANGE: Team "
                 +:+ py_str (PossessionChangeEvent.previous_team event)
                 +:+ " → Team "
                 +:+ py_str (PossessionChangeEvent.new_team event))
              (255, 165, 0)) m).
Proof. apply run_draw_event_banner. Qed.

Lemma banner_calls_no_arrow v shp text c :
  Forall (fun call => is_arrow call = false) (banner_calls v shp text c).
Proof. unfold banner_calls. repeat constructor. Qed.

Lemma new_calls_same m : new_calls m m = [].
Proof. unfold new_calls. apply drop_all. Qed.

(** C4 (as the code has it).  [draw_pass_event] draws no arrow for a pass
    whose [receiver_id] is [None] or has no entry in the track table at
    [end_frame].  When the passer has an entry at [start_frame] and, for a
    truthy [receiver_id], the table has a row for [end_frame], the call
    returns normally and the last thing it draws is the green banner
    "PASS IN PROGRESS: Player passer → Player receiver"; for an
    unresolvable receiver the banner is all it draws. *)
Theorem pass_event_banner_and_arrow event tracks m :
  let r := draw_pass_event event tracks m in
  let banner :=
    banner_calls (self m) (shape (canvas m))
      ("PASS IN PROGRESS: Player " +:+ py_str (PassEvent.passer_id event)
         +:+ " → Player " +:+ py_str_opt (PassEvent.receiver_id event))
      (0, 255, 0) in
  let receiver_entry :=
    id ← PassEvent.receiver_id event;
    track_of tracks (PassEvent.end_frame event) id in
  (receiver_entry = None →
     Forall (fun call => is_arrow call = false) (new_calls m r.2))
  ∧ (is_Some (track_of tracks (PassEvent.start_frame event)
                       (PassEvent.passer_id event)) →
     (truthy (PassEvent.receiver_id event) = true →
        has_row tracks (PassEvent.end_frame event)) →
     r.1 = Ok tt
     ∧ (∃ before, new_calls m r.2 = before ++ banner)
     ∧ (receiver_entry = None → new_calls m r.2 = banner)).
Proof.
  cbv zeta. rewrite run_draw_pass_event. cbv zeta.
  fold (pass_banner_text event).
  set (banner := banner_calls _ _ _ _).
  unfold has_row, track_of.
  destruct (tracks !! "players") as [players|]; simpl;
    [|split; [intros _; rewrite new_calls_same; constructor
             |by intros [? ?]]].
  destruct (players !! PassEvent.start_frame event) as [row|]; simpl;
    [|split; [intros _; rewrite new_calls_same; constructor
             |by intros [? ?]]].
  destruct (row !! PassEvent.passer_id event) as [passer|]; simpl;
    [|split; [intros _; rewrite new_calls_same; constructor
             |by intros [? ?]]].
  destruct (PassEvent.receiver_id event) as [id|]; simpl.
  2:{ rewrite new_calls_paint. split; [intros _|intros _ _].
      - apply banner_calls_no_arrow.
      - split; [done|]. split; [by exists []|done]. }
  destruct (id =? 0); simpl.
  { rewrite new_calls_paint. split; [intros _|intros _ _].
    - apply banner_calls_no_arrow.
    - split; [done|]. split; [by exists []|done]. }
  destruct (players !! PassEvent.end_frame event) as [row'|]; simpl.
  2:{ split; [intros _; rewrite new_calls_same; constructor|].
      intros _ Hrow. by destruct Hrow. }
  destruct (row' !! id) as [receiver|]; simpl; rewrite new_calls_paint.
  - split; [done|]. intros _ _. split; [done|].
    split; [by eexists [_]|done].
  - split; [intros _; apply banner_calls_no_arrow|]. intros _ _.
    split; [done|]. split; [by exists []|done].
Qed.

(** C10.  A pass whose [receiver_id] is [0] is treated as having no
    receiver: the guard of line 41 is false by the truthiness of
    [receiver_id], without the track table being consulted, so no arrow is
    drawn whatever the table holds for player 0 at [end_frame]; with the
    passer tracked, the banner is all that is drawn. *)
Theorem falsy_receiver_draws_no_arrow event tracks m :
  PassEvent.receiver_id event = Some 0 →
  receiver_resolvable event tracks m = (Ok false, m)
  ∧ Forall (fun call => is_arrow call = false)
           (new_calls m (draw_pass_event event tracks m).2)
  ∧ (is_Some (track_of tracks (PassEvent.start_frame event)
                       (PassEvent.passer_id event)) →
     draw_pass_event event tracks m
     = (Ok tt,
        paint (banner_calls (self m) (shape (canvas m))
                 ("PASS IN PROGRESS: Player "
                    +:+ py_str (PassEvent.passer_id event)
                    +:+ " → Player 0")
                 (0, 255, 0)) m)).
Proof.
  intros Hr. split; [|split].
  - unfold receiver_resolvable. by rewrite Hr.
  - rewrite run_draw_pass_event. cbv zeta. rewrite Hr; simpl.
    destruct (track_of _ _ _); cbn [snd].
    + rewrite new_calls_paint. apply banner_calls_no_arrow.
    + rewrite new_calls_same. constructor.
  - intros [passer Hp]. rewrite run_draw_pass_event. cbv zeta.
    rewrite Hp, Hr; simpl. unfold pass_banner_text. by rewrite Hr.
Qed.

(** C8.  Neither routine checks that the players it looks up at
    [start_frame] are tracked: with the passer missing [draw_pass_event],
    and with either participant missing [draw_pressure_event], raises the
    lookup error before anything is drawn.  Only the receiver of a pass is
    guarded: with the passer tracked and a row for [end_frame] present, a
    receiver without entry makes [draw_pass_event] return normally. *)
Theorem missing_track_raises tracks m :
  (∀ event,
     track_of tracks (PassEvent.start_frame event)
              (PassEvent.passer_id event) = None →
     draw_pass_event event tracks m = (Raise KeyError, m))
  ∧ (∀ event,
       track_of tracks (PressureEvent.start_frame event)
                (PressureEvent.pressured_player_id event) = None
       ∨ track_of tracks (PressureEvent.start_frame event)
                  (PressureEvent.pressuring_player_id event) = None →
       draw_pressure_event event tracks m = (Raise KeyError, m))
  ∧ (∀ event id,
       is_Some (track_of tracks (PassEvent.start_frame event)
                         (PassEvent.passer_id event)) →
       PassEvent.receiver_id event = Some id →
       has_row tracks (PassEvent.end_frame event) →
       track_of tracks (PassEvent.end_frame event) id = None →
       (draw_pass_event event tracks m).1 = Ok tt).
Proof.
  split; [|split].
  - intros event Hp. rewrite run_draw_pass_event. cbv zeta. by rewrite Hp.
  - intros event Hp. rewrite run_draw_pressure_event.
    destruct Hp as [-> | ->]; [done|]. by destruct (track_of _ _ _).
  - intros event id [passer Hp] Hr [row Hrow] Hid.
    rewrite run_draw_pass_event. cbv zeta. rewrite Hp, Hr; simpl.
    destruct (id =? 0); simpl; [done|].
    unfold track_of in Hid. rewrite Hrow in *. simpl in Hid.
    by rewrite Hid.
Qed.

(** *** The colour of the pressure line *)





(** ** Further properties of [draw_events] *)

Lemma first_degenerate (l : list PassEvent.t) :
  Forall (fun e => ¬ degenerate e) l
  ∨ ∃ l1 e l2,
      l = l1 ++ e :: l2 ∧ Forall (fun e' => ¬ degenerate e') l1
      ∧ degenerate e.
Proof.
  induction l as [|e rest IH]; [left; constructor|].
  destruct (degenerate_dec e) as [Hd|Hnd].
  - right. exists [], e, rest. repeat split; [constructor|assumption].
  - destruct IH as [Hall|(l1 & e' & l2 & -> & Hl1 & He')].
    + left. by constructor.
    + right. exists (e :: l1), e', l2. repeat split; [by constructor|done].
Qed.

Lemma run_pass_loop_until_degenerate frame_num l1 e l2 m :
  Forall (fun e' => ¬ degenerate e') l1 →
  degenerate e →
  for_ (l1 ++ e :: l2) (draw_pass_banner frame_num) m
  = (Raise ZeroDivisionError,
     paint (pass_banners (self m) (shape (canvas m)) frame_num l1) m).
Proof.
  intros Hl1 He. revert m.
  induction Hl1 as [|e' rest He' _ IH]; intros m; simpl.
  - erewrite bind_Raise by (by apply run_draw_pass_banner_degenerate).
    by rewrite paint_nil.
  - erewrite bind_Ok by (by apply run_draw_pass_banner).
    rewrite IH; simpl. by rewrite paint_paint.
Qed.

Lemma run_draw_events_degenerate events frame_num tracks m l1 e l2 :
  absorbed (active_pass_events (self m)) events frame_num = l1 ++ e :: l2 →
  Forall (fun e' => ¬ degenerate e') l1 →
  degenerate e →
  draw_events events frame_num tracks m
  = (Raise ZeroDivisionError,
     paint (pass_banners (self m) (shape (canvas m)) frame_num l1)
           (with_active (l1 ++ e :: l2) m)).
Proof.
  intros Habs Hl1 He. rewrite draw_events_steps. cbv zeta. rewrite Habs.
  by rewrite run_pass_loop_until_degenerate.
Qed.

Lemma draw_events_cases events frame_num tracks m :
  let active' := absorbed (active_pass_events (self m)) events frame_num in
  (Forall (fun e => ¬ degenerate e) active'
   ∧ draw_events events frame_num tracks m
     = (Ok tt,
        paint (pass_banners (self m) (shape (canvas m)) frame_num active'
               ++ other_banners (self m) (shape (canvas m)) events)
              (with_active active' m)))
  ∨ (∃ l1 e l2,
       active' = l1 ++ e :: l2 ∧ degenerate e
       ∧ draw_events events frame_num tracks m
         = (Raise ZeroDivisionError,
            paint (pass_banners (self m) (shape (canvas m)) frame_num l1)
                  (with_active active' m))).
Proof.
  intros active'.
  destruct (first_degenerate active') as [Hall|(l1 & e & l2 & E & Hl1 & He)].
  - left. split; [assumption|]. by apply run_draw_events.
  - right. exists l1, e, l2. split; [assumption|]. split; [assumption|].
    subst active'. rewrite E. by apply run_draw_events_degenerate.
Qed.

(** X1.  [draw_events] returns normally exactly when no tracked pass has an
    empty window, and the only exception it raises is [ZeroDivisionError]:
    it never looks anything up in [tracks]. *)
Theorem draw_events_fails_only_by_empty_window events frame_num tracks m :
  let active' := absorbed (active_pass_events (self m)) events frame_num in
  let r := draw_events events frame_num tracks m in
  (r.1 = Ok tt ↔ Forall (fun e => ¬ degenerate e) active')
  ∧ (r.1 = Ok tt ∨ r.1 = Raise ZeroDivisionError).
Proof.
  cbv zeta.
  destruct (draw_events_cases events frame_num tracks m)
    as [[Hall ->]|(l1 & e & l2 & E & He & ->)]; simpl.
  - split; [tauto|by left].
  - split; [|by right]. split; [discriminate|].
    intros Hall. rewrite E in Hall.
    apply Forall_app in Hall as [_ Hall]. by inversion Hall.
Qed.

(** X2.  When a tracked pass has an empty window the call is not undone:
    [active_pass_events] is updated, the banners of the passes in progress
    that precede the first such pass in the list are on the frame, and the
    banners of the pressure and possession-change events are not drawn. *)
Theorem raise_leaves_partial_frame events frame_num tracks m l1 e l2 :
  absorbed (active_pass_events (self m)) events frame_num = l1 ++ e :: l2 →
  Forall (fun e' => ¬ degenerate e') l1 →
  degenerate e →
  draw_events events frame_num tracks m
  = (Raise ZeroDivisionError,
     paint (pass_banners (self m) (shape (canvas m)) frame_num l1)
           (with_active (l1 ++ e :: l2) m)).
Proof.
  apply run_draw_events_degenerate.
Qed.

Lemma new_calls_paint_with_active cs l m :
  new_calls m (paint cs (with_active l m)) = cs.
Proof. unfold new_calls; simpl. apply drop_app_length. Qed.

Lemma other_banners_app v shp l1 l2 :
  other_banners v shp (l1 ++ l2)
  = other_banners v shp l1 ++ other_banners v shp l2.
Proof. unfold other_banners. apply flat_map_app. Qed.

Lemma other_banners_passes v shp l :
  Forall (fun ev => is_pass ev = true) l → other_banners v shp l = [].
Proof.
  induction 1 as [|ev rest Hev _ IH]; [done|].
  destruct ev; try discriminate. exact IH.
Qed.

(** X5.  Banners are drawn one over the other, the passes first and then
    the pressure and possession-change events in the order of [events]: in
    a call that returns normally, the last calls on the frame are the banner
    of the last event of [events] that is not a pass. *)
Theorem last_event_banner_is_on_top events frame_num tracks m pre ev post :
  events = pre ++ ev :: post →
  is_pass ev = false →
  Forall (fun ev' => is_pass ev' = true) post →
  Forall (fun e => ¬ degenerate e)
         (absorbed (active_pass_events (self m)) events frame_num) →
  ∃ before,
    new_calls m (draw_events events frame_num tracks m).2
    = before
      ++ match ev with
         | EPressure e =>
             banner_calls (self m) (shape (canvas m))
                          (PressureEvent.description e) (255, 0, 0)
         | EPossession e =>
             banner_calls (self m) (shape (canvas m))
                          (PossessionChangeEvent.description e) (0, 0, 255)
         | EPass _ => []
         end.
Proof.
  intros -> Hev Hpost Hall. rewrite run_draw_events by assumption.
  cbn [snd]. rewrite new_calls_paint_with_active.
  rewrite other_banners_app. change (ev :: post) with ([ev] ++ post).
  rewrite other_banners_app, (other_banners_passes _ _ post Hpost).
  rewrite app_nil_r. unfold other_banners at 2. simpl. rewrite app_nil_r.
  eexists. rewrite app_assoc. reflexivity.
Qed.

Lemma banners_app v shp l1 l2 :
  banners v shp (l1 ++ l2) = banners v shp l1 ++ banners v shp l2.
Proof. unfold banners. apply flat_map_app. Qed.

Lemma pass_banners_banners v shp frame_num l :
  pass_banners v shp frame_num l
  = banners v shp
      (map (fun e => (PassEvent.description e, (0, 128, 0)))
           (List.filter (in_progress frame_num) l)).
Proof.
  induction l as [|e rest IH]; [done|]. simpl.
  destruct (in_progress frame_num e); simpl; by rewrite IH.
Qed.

Lemma other_banners_banners v shp events :
  ∃ l, other_banners v shp events = banners v shp l.
Proof.
  induction events as [|ev rest [l IH]]; [by exists []|].
  unfold other_banners in *. simpl. rewrite IH.
  destruct ev as [e|e|e]; simpl.
  - by exists l.
  - by exists ((PressureEvent.description e, (255, 0, 0)) :: l).
  - by exists ((PossessionChangeEvent.description e, (0, 0, 255)) :: l).
Qed.

Lemma in_banners call v shp l :
  In call (banners v shp l) → ∃ text c, In call (banner_calls v shp text c).
Proof.
  unfold banners. rewrite in_flat_map. intros ([text c] & _ & Hin).
  by exists text, c.
Qed.

(** X6.  Whatever a call of [draw_events] adds to the frame, whether it
    returns or raises, is a sequence of whole banners as
    [draw_event_banner] draws them.  So every band added is the one
    rectangle from [(0, 0)] to [(w, banner_height)], black and filled, and
    every text added sits at the origin that centres it in that band, which
    depends on the text alone: no banner is offset from another. *)
Theorem banners_share_one_band events frame_num tracks m :
  let v := self m in
  let shp := shape (canvas m) in
  let added := new_calls m (draw_events events frame_num tracks m).2 in
  (∃ l, added = banners v shp l)
  ∧ (∀ pt1 pt2 c thickness alpha beta gamma,
       In (BlendedRectangle pt1 pt2 c thickness alpha beta gamma) added →
       BlendedRectangle pt1 pt2 c thickness alpha beta gamma
       = BlendedRectangle (0, 0) (shp.2, banner_height v) (0, 0, 0) (-1)
                          (7 # 10) (3 # 10) 0)
  ∧ (∀ text org font scale c thickness,
       In (PutText text org font scale c thickness) added →
       let size :=
         getTextSize text (banner_font v) (banner_font_scale v)
                     (banner_thickness v) in
       org = ((shp.2 - size.1) `div` 2, (banner_height v + size.2) `div` 2)
       ∧ font = banner_font v ∧ scale = banner_font_scale v).
Proof.
  cbv zeta.
  assert (∃ l, new_calls m (draw_events events frame_num tracks m).2
               = banners (self m) (shape (canvas m)) l) as [l ->].
  { destruct (draw_events_cases events frame_num tracks m)
      as [[_ ->]|(l1 & e & l2 & _ & _ & ->)]; cbn [snd];
      rewrite new_calls_paint_with_active, pass_banners_banners.
    - destruct (other_banners_banners (self m) (shape (canvas m)) events)
        as [l ->].
      rewrite <- banners_app. by eexists.
    - by eexists. }
  split; [by exists l|]. split.
  - intros pt1 pt2 c thickness alpha beta gamma Hin.
    apply in_banners in Hin as (text & c' & Hin).
    unfold banner_calls in Hin. simpl in Hin.
    destruct Hin as [E|[E|[E|[]]]]; try discriminate. by symmetry.
  - intros text org font scale c thickness Hin.
    apply in_banners in Hin as (text' & c' & Hin).
    unfold banner_calls in Hin. simpl in Hin.
    destruct Hin as [E|[E|[E|[]]]]; try discriminate;
      by injection E as <- <- <- <- _ _.
Qed.

Lemma filter_earlier_frame f1 f2 (l : list PassEvent.t) :
  f1 <= f2 →
  List.filter (fun e => f2 <=? PassEvent.end_frame e)
              (List.filter (fun e => f1 <=? PassEvent.end_frame e) l)
  = List.filter (fun e => f2 <=? PassEvent.end_frame e) l.
Proof.
  intros Hle. induction l as [|e rest IH]; [done|]. simpl.
  destruct (Z.leb_spec f1 (PassEvent.end_frame e)) as [H1|H1]; simpl.
  - by rewrite IH.
  - rewrite IH. destruct (Z.leb_spec f2 (PassEvent.end_frame e)); [lia|done].
Qed.

(** X3.  Pruning composes along non-decreasing frame numbers: after a call
    at frame [f1] followed by a call at frame [f2 >= f1], the tracked passes
    are those the single pruning at [f2] keeps among the passes tracked
    before and the passes of the first call, followed by the passes of the
    second call.  In particular a call without passes in between two calls
    does not change what is tracked after them. *)
Theorem earlier_prune_is_subsumed tracks f1 evs1 f2 evs2 m :
  f1 <= f2 →
  active_pass_events
    (self (after_calls tracks [(f1, evs1); (f2, evs2)] m))
  = absorbed (active_pass_events (self m) ++ passes_of evs1) evs2 f2.
Proof.
  intros Hle. unfold after_calls; simpl.
  rewrite !active_after_call. unfold absorbed.
  rewrite !List.filter_app. by rewrite filter_earlier_frame.
Qed.

Lemma filter_repeat_unexpired f p k :
  f <= PassEvent.end_frame p →
  List.filter (fun e => f <=? PassEvent.end_frame e) (repeat p k)
  = repeat p k.
Proof.
  intros Hle. induction k as [|k IH]; [done|]. simpl.
  destruct (Z.leb_spec f (PassEvent.end_frame p)); [by rewrite IH|lia].
Qed.

(** X4.  Supplying the same pass again on every call, at a frame of its
    window, tracks one more copy per call: after [k + 1] such calls the
    list is the pruned initial list followed by [k + 1] copies. *)
Theorem resupplied_pass_accumulates tracks f p k m :
  f <= PassEvent.end_frame p →
  active_pass_events
    (self (after_calls tracks (repeat (f, [EPass p]) (S k)) m))
  = List.filter (fun e => f <=? PassEvent.end_frame e)
                (active_pass_events (self m))
    ++ repeat p (S k).
Proof.
  intros Hle. revert m. induction k as [|k IH]; intros m.
  - unfold after_calls; simpl. by rewrite active_after_call.
  - change (repeat (f, [EPass p]) (S (S k)))
      with ((f, [EPass p]) :: repeat (f, [EPass p]) (S k)).
    unfold after_calls in *. cbn [fold_left]. rewrite IH.
    rewrite active_after_call. unfold absorbed.
    rewrite List.filter_app, filter_earlier_frame by lia.
    change (passes_of [EPass p]) with (repeat p 1).
    rewrite filter_repeat_unexpired by assumption.
    rewrite <- app_assoc. f_equal.
Qed.

(** X7.  [draw_event_banner] never raises; it draws the band over the full
    width of the frame, then the text twice at one origin, first in black
    with thickness [banner_thickness + 2] and then in the colour asked for.
    The origin centres the text: the margins left and right of it differ by
    at most one pixel, and so do those above and below its baseline within
    the band. *)
Theorem banner_text_is_centred text c m :
  let v := self m in
  let w := (shape (canvas m)).2 in
  let size :=
    getTextSize text (banner_font v) (banner_font_scale v)
                (banner_thickness v) in
  ∃ x y,
    draw_event_banner text c m
    = (Ok tt,
       paint [ BlendedRectangle (0, 0) (w, banner_height v) (0, 0, 0) (-1)
                                (7 # 10) (3 # 10) 0;
               PutText text (x, y) (banner_font v) (banner_font_scale v)
                       (0, 0, 0) (banner_thickness v + 2);
               PutText text (x, y) (banner_font v) (banner_font_scale v)
                       c (banner_thickness v) ] m)
    ∧ 0 <= (w - size.1 - x) - x <= 1
    ∧ 0 <= (banner_height v + size.2 - y) - y <= 1.
Proof.
  cbv zeta.
  set (size := getTextSize _ _ _ _).
  exists (((shape (canvas m)).2 - size.1) `div` 2),
         ((banner_height (self m) + size.2) `div` 2).
  split; [apply run_draw_event_banner|].
  clearbody size. Z.div_mod_to_equations. lia.
Qed.

Lemma in_progress_between frame_num e :
  ¬ degenerate e →
  in_progress frame_num e
  = between (PassEvent.start_frame e) (PassEvent.end_frame e) frame_num.
Proof.
  intros Hnd. unfold degenerate in Hnd. apply eq_true_iff_eq.
  rewrite in_progress_iff. unfold between.
  rewrite andb_true_iff, !Z.leb_le. unfold progress_of.
  destruct (PassEvent.end_frame e - PassEvent.start_frame e)
    as [|d|d] eqn:Ed; [lia|..];
    unfold Qle, Qdiv, Qmult, Qinv, inject_Z; simpl;
    rewrite ?Z.mul_1_r; lia.
Qed.

Lemma pass_banners_between v shp frame_num l :
  Forall (fun e => ¬ degenerate e) l →
  pass_banners v shp frame_num l
  = flat_map (fun e =>
      if between (PassEvent.start_frame e) (PassEvent.end_frame e) frame_num
      then banner_calls v shp (PassEvent.description e) (0, 128, 0)
      else []) l.
Proof.
  induction 1 as [|e rest He _ IH]; [done|]. simpl.
  by rewrite IH, in_progress_between.
Qed.

(** X14.  In a call of [draw_events] in which no tracked pass has an empty
    window, the pass banners drawn are those of the tracked passes for
    which [frame_num] lies between [start_frame] and [end_frame], in
    whichever order the two are.  Pruning looks at [end_frame] alone, so a
    pass given backwards, [start_frame > end_frame], is shown only by a call
    that supplies it or at the frame [end_frame]. *)
Theorem banner_window_either_order events frame_num tracks m :
  let active' := absorbed (active_pass_events (self m)) events frame_num in
  Forall (fun e => ¬ degenerate e) active' →
  new_calls m (draw_events events frame_num tracks m).2
  = flat_map (fun e =>
      if between (PassEvent.start_frame e) (PassEvent.end_frame e) frame_num
      then banner_calls (self m) (shape (canvas m))
                        (PassEvent.description e) (0, 128, 0)
      else []) active'
    ++ other_banners (self m) (shape (canvas m)) events
  ∧ (∀ e, In e active' →
       PassEvent.end_frame e < PassEvent.start_frame e →
       between (PassEvent.start_frame e) (PassEvent.end_frame e) frame_num
       = true →
       In (EPass e) events ∨ frame_num = PassEvent.end_frame e).
Proof.
  intros active' Hall. split.
  - rewrite run_draw_events by assumption. cbn [snd].
    rewrite new_calls_paint_with_active. fold active'.
    by rewrite pass_banners_between.
  - intros e Hin Hback Hbetween. subst active'.
    apply in_absorbed in Hin as [[_ Hkept]|Hsup]; [right|by left].
    unfold between in Hbetween.
    apply andb_true_iff in Hbetween as [Hlo _].
    apply Z.leb_le in Hlo. lia.
Qed.

(** ** Further properties of the per-event routines *)

Lemma extends_refl m : extends m m.
Proof.
  unfold extends. rewrite new_calls_same, app_nil_r. by repeat split.
Qed.

Lemma extends_paint cs m : extends m (paint cs m).
Proof. unfold extends. rewrite new_calls_paint. by repeat split. Qed.

Lemma extends_paint_with_active cs l m :
  extends m (paint cs (with_active l m)).
Proof.
  unfold extends. rewrite new_calls_paint_with_active. by repeat split.
Qed.

Lemma extends_paint_ticked cs m : extends m (paint cs (ticked m)).
Proof.
  unfold extends, new_calls; simpl. rewrite drop_app_length.
  by repeat split.
Qed.

(** X8.  No method removes or alters what is on the frame, changes its
    shape, or assigns the configuration of the visualizer: each one only
    appends calls, also when it raises.  [draw_pass_event],
    [draw_pressure_event] and [draw_possession_change] leave the visualizer
    as it is, so only [draw_events] changes [active_pass_events]; and only
    [draw_pressure_event] reads the tick counter. *)
Theorem methods_only_add_to_frame tracks m :
  (∀ events frame_num,
     let m' := (draw_events events frame_num tracks m).2 in
     extends m m' ∧ ticks_read m' = ticks_read m)
  ∧ (∀ event,
       let m' := (draw_pass_event event tracks m).2 in
       extends m m' ∧ self m' = self m ∧ ticks_read m' = ticks_read m)
  ∧ (∀ event,
       let m' := (draw_pressure_event event tracks m).2 in
       extends m m' ∧ self m' = self m)
  ∧ (∀ event,
       let m' := (draw_possession_change event m).2 in
       extends m m' ∧ self m' = self m ∧ ticks_read m' = ticks_read m).
Proof.
  split; [|split; [|split]].
  - intros events frame_num m'. subst m'.
    destruct (draw_events_state events frame_num tracks m) as [cs ->].
    split; [apply extends_paint_with_active|reflexivity].
  - intros event m'. subst m'. rewrite run_draw_pass_event. cbv zeta.
    repeat case_match; cbn [snd];
      (split; [apply extends_paint || apply extends_refl|by split]).
  - intros event m'. subst m'. rewrite run_draw_pressure_event.
    repeat case_match; cbn [snd];
      (split; [apply extends_paint_ticked || apply extends_refl
              |reflexivity]).
  - intros event m'. subst m'. rewrite run_draw_possession_change.
    cbn [snd]. split; [apply extends_paint|by split].
Qed.

Lemma no_arrow_in_banner v shp text c :
  existsb is_arrow (banner_calls v shp text c) = false.
Proof. reflexivity. Qed.

(** X9.  [draw_pass_event] draws the arrow exactly when the passer has an
    entry at [start_frame] and [receiver_id] is a non-zero identifier with
    an entry at [end_frame]; the arrow then runs from the passer's position
    to the receiver's, both truncated to integers, in green and with
    thickness [arrow_thickness], and is drawn before the banner. *)
Theorem arrow_drawn_iff_receiver_resolved event tracks m :
  let added := new_calls m (draw_pass_event event tracks m).2 in
  let resolved passer id receiver :=
    track_of tracks (PassEvent.start_frame event)
             (PassEvent.passer_id event) = Some passer
    ∧ PassEvent.receiver_id event = Some id ∧ id ≠ 0
    ∧ track_of tracks (PassEvent.end_frame event) id = Some receiver in
  (existsb is_arrow added = true
   ↔ ∃ passer id receiver, resolved passer id receiver)
  ∧ (∀ passer id receiver,
       resolved passer id receiver →
       added
       = ArrowedLine (int_position passer) (int_position receiver)
                     (0, 255, 0) (arrow_thickness (self m))
         :: banner_calls (self m) (shape (canvas m))
                         (pass_banner_text event) (0, 255, 0)).
Proof.
  cbv zeta. rewrite run_draw_pass_event. cbv zeta.
  destruct (track_of tracks (PassEvent.start_frame event)
                     (PassEvent.passer_id event)) as [passer|] eqn:Ep.
  2:{ rewrite new_calls_same. split.
      - split; [discriminate|]. by intros (? & ? & ? & ? & _).
      - by intros ? ? ? (? & _). }
  destruct (PassEvent.receiver_id event) as [id|] eqn:Er; simpl.
  2:{ rewrite new_calls_paint, no_arrow_in_banner. split.
      - split; [discriminate|]. by intros (? & ? & ? & _ & ? & _).
      - by intros ? ? ? (_ & ? & _). }
  destruct (Z.eqb_spec id 0) as [->|Hid]; simpl.
  { rewrite new_calls_paint, no_arrow_in_banner. split.
    - split; [discriminate|].
      intros (? & ? & ? & _ & E & Hne & _). congruence.
    - intros ? ? ? (_ & E & Hne & _). congruence. }
  unfold track_of.
  destruct (players ← tracks !! "players";
            players !! PassEvent.end_frame event) as [row|]; simpl.
  2:{ rewrite new_calls_same. split.
      - split; [discriminate|]. by intros (? & ? & ? & _ & _ & _ & ?).
      - by intros ? ? ? (_ & _ & _ & ?). }
  destruct (row !! id) as [receiver|] eqn:Eid; cbn [snd];
    rewrite new_calls_paint.
  - split.
    + split; [|done]. intros _. exists passer, id, receiver. by repeat split.
    + intros p i r (Ep' & Ei & _ & Erow).
      injection Ep' as <-. injection Ei as <-. rewrite Eid in Erow.
      by injection Erow as <-.
  - rewrite no_arrow_in_banner. split.
    + split; [discriminate|].
      intros (? & i & ? & _ & Ei & _ & Erow). injection Ei as <-.
      rewrite Eid in Erow. discriminate.
    + intros ? i ? (_ & Ei & _ & Erow). injection Ei as <-.
      rewrite Eid in Erow. discriminate.
Qed.

(** X10.  [draw_pass_event] returns normally exactly when the passer has an
    entry at [start_frame] and, for a truthy [receiver_id], the table has a
    row for [end_frame]; otherwise it raises the lookup error with the
    machine as it was: nothing is drawn before the lookups. *)
Theorem draw_pass_event_fails_atomically event tracks m :
  let r := draw_pass_event event tracks m in
  (r.1 = Ok tt
   ↔ is_Some (track_of tracks (PassEvent.start_frame event)
                       (PassEvent.passer_id event))
     ∧ (truthy (PassEvent.receiver_id event) = true →
        has_row tracks (PassEvent.end_frame event)))
  ∧ (r.1 ≠ Ok tt → r = (Raise KeyError, m)).
Proof.
  cbv zeta. rewrite run_draw_pass_event. cbv zeta. unfold has_row.
  destruct (track_of tracks (PassEvent.start_frame event)
                     (PassEvent.passer_id event)) as [passer|].
  2:{ split; [|done]. split; [discriminate|]. by intros [[? ?] _]. }
  destruct (truthy (PassEvent.receiver_id event)).
  2:{ split; [|done]. split; [|done]. intros _. split; [by eexists|done]. }
  destruct (players ← tracks !! "players";
            players !! PassEvent.end_frame event) as [row|].
  - destruct (r ← PassEvent.receiver_id event; row !! r);
      (split; [|done]); (split; [|done]); intros _;
      (split; [by eexists|by eexists]).
  - split; [|done]. split; [discriminate|].
    intros [_ Hrow]. by destruct (Hrow eq_refl).
Qed.

(** X11.  [draw_pressure_event] returns normally exactly when both
    participants have an entry at [start_frame]; it has then read the tick
    counter once and added five calls: the circle, the line and the banner.
    Otherwise it raises the lookup error with the machine as it was, the
    tick counter not read. *)
Theorem draw_pressure_event_fails_atomically event tracks m :
  let r := draw_pressure_event event tracks m in
  (r.1 = Ok tt
   ↔ is_Some (track_of tracks (PressureEvent.start_frame event)
                       (PressureEvent.pressured_player_id event))
     ∧ is_Some (track_of tracks (PressureEvent.start_frame event)
                         (PressureEvent.pressuring_player_id event)))
  ∧ (r.1 = Ok tt →
     ticks_read r.2 = S (ticks_read m)
     ∧ length (new_calls m r.2) = 5%nat)
  ∧ (r.1 ≠ Ok tt → r = (Raise KeyError, m)).
Proof.
  cbv zeta. rewrite run_draw_pressure_event.
  destruct (track_of tracks (PressureEvent.start_frame event)
                     (PressureEvent.pressured_player_id event))
    as [pressured|].
  2:{ split; [|split; [discriminate|done]].
      split; [discriminate|]. by intros [[? ?] _]. }
  destruct (track_of tracks (PressureEvent.start_frame event)
                     (PressureEvent.pressuring_player_id event))
    as [pressuring|].
  2:{ split; [|split; [discriminate|done]].
      split; [discriminate|]. by intros [_ [? ?]]. }
  split; [|split; [|done]].
  - split; [|done]. intros _. split; by eexists.
  - intros _. cbn [snd]. split; [reflexivity|].
    unfold new_calls; simpl. by rewrite drop_app_length.
Qed.

(** *** Numeric bounds *)

Lemma py_int_nonneg q : (0 <= q)%Q → py_int q = Qfloor q.
Proof.
  intros Hq. unfold py_int. by rewrite (proj2 (Qle_bool_iff 0 q) Hq).
Qed.

Lemma py_int_between (a b : Z) q :
  0 <= a → (inject_Z a <= q)%Q → (q <= inject_Z b)%Q →
  a <= py_int q <= b.
Proof.
  intros Ha Hlo Hhi.
  rewrite py_int_nonneg.
  - split.
    + rewrite <- (Qfloor_Z a). by apply Qfloor_resp_le.
    + rewrite <- (Qfloor_Z b). by apply Qfloor_resp_le.
  - apply Qle_trans with (inject_Z a); [|assumption].
    change 0%Q with (inject_Z 0). by rewrite <- Zle_Qle.
Qed.

(** X12.  However the tick counter stands, as long as [np.sin] stays within
    [-1, 1], the circle of [draw_pressure_event] has a radius between 30 and
    50; it is centred on the pressured player, red and of thickness 2. *)
Theorem pulse_radius_bounds event tracks m center radius c thickness :
  (∀ x, (-1 <= np_sin x)%Q ∧ (np_sin x <= 1)%Q) →
  In (Circle center radius c thickness)
     (new_calls m (draw_pressure_event event tracks m).2) →
  30 <= radius <= 50
  ∧ c = (0, 0, 255) ∧ thickness = 2
  ∧ ∃ pressured,
      track_of tracks (PressureEvent.start_frame event)
               (PressureEvent.pressured_player_id event) = Some pressured
      ∧ center = int_position pressured.
Proof.
  intros Hsin. rewrite run_draw_pressure_event.
  destruct (track_of tracks (PressureEvent.start_frame event)
                     (PressureEvent.pressured_player_id event))
    as [pressured|]; [|by rewrite new_calls_same].
  destruct (track_of tracks (PressureEvent.start_frame event)
                     (PressureEvent.pressuring_player_id event))
    as [pressuring|]; [|by rewrite new_calls_same].
  cbn [snd].
  assert (∀ cs, new_calls m (paint cs (ticked m)) = cs) as ->
    by (intros cs; unfold new_calls; simpl; apply drop_app_length).
  intros [E|[E|Hin]].
  - injection E as <- <- <- <-. split; [|by eauto].
    match goal with
    | |- context [np_sin ?x] =>
        destruct (Hsin x) as [Hlo Hhi]; set (s := np_sin x) in *
    end.
    clearbody s. apply py_int_between; [lia|unfold inject_Z; lra..].
  - discriminate.
  - unfold banner_calls in Hin. simpl in Hin.
    destruct Hin as [?|[?|[?|[]]]]; discriminate.
Qed.

(** X13.  For an intensity in [0, 1] the colour of the pressure line is a
    valid colour without blue: green and red each lie in [0, 255], and
    together they make 254 or 255, the loss being that of the two
    truncations. *)
Theorem intensity_color_channels i :
  (0 <= i)%Q → (i <= 1)%Q →
  ∃ g r,
    intensity_color i = (0, g, r)
    ∧ 0 <= g <= 255 ∧ 0 <= r <= 255 ∧ 254 <= g + r <= 255.
Proof.
  intros H0 H1. unfold intensity_color.
  exists (py_int (255 * (1 - i))), (py_int (255 * i)).
  split; [reflexivity|].
  rewrite !py_int_nonneg by lra.
  set (a := (255 * (1 - i))%Q). set (b := (255 * i)%Q).
  assert (a + b == 255)%Q as Hab by (subst a b; ring).
  assert (0 <= a)%Q by (subst a; lra). assert (0 <= b)%Q by (subst b; lra).
  pose proof (Qfloor_le a) as Ha. pose proof (Qlt_floor a) as Ha'.
  pose proof (Qfloor_le b) as Hb. pose proof (Qlt_floor b) as Hb'.
  rewrite inject_Z_plus in Ha', Hb'.
  pose proof (Qfloor_resp_le 0 a ltac:(assumption)) as Hga.
  pose proof (Qfloor_resp_le 0 b ltac:(assumption)) as Hgb.
  change (Qfloor 0) with 0 in Hga, Hgb.
  assert (Qfloor a + Qfloor b <= 255) as Hsum.
  { rewrite Zle_Qle, inject_Z_plus. unfold inject_Z at 3. lra. }
  assert (253 < Qfloor a + Qfloor b) as Hsum'.
  { rewrite Zlt_Qlt, inject_Z_plus. unfold inject_Z at 1.
    unfold inject_Z at 2 in Ha'. unfold inject_Z at 2 in Hb'. lra. }
  lia.
Qed.

End Visualizer.

(** ** The statements on examples *)

(** C1, on a pass with [start_frame = end_frame = frame_num = 5]. *)
Lemma degenerate_window_raises_witness :
  (draw_events text_size_20x22 [EPass pass_single_frame] 5 tracks_example
               (fresh ticks_slow)).1
  = Raise ZeroDivisionError.
Proof.
  apply (degenerate_window_raises text_size_20x22 [EPass pass_single_frame]
           5 tracks_example (fresh ticks_slow) pass_single_frame).
  - simpl. left. reflexivity.
  - reflexivity.
Defined.

(** The same call leaves the frame without any banner. *)
Example single_frame_pass_draws_nothing :
  drawn (canvas (draw_events text_size_20x22 [EPass pass_single_frame] 5
                             tracks_example (fresh ticks_slow)).2) = [].
Proof. vm_compute. reflexivity. Qed.

(** C2, for the pass of window [10, 20] supplied at frame 10: it is tracked
    after the call of frame 20. *)
Lemma active_set_membership_witness :
  In pass_10_20
     (active_pass_events
        (self (after_calls text_size_20x22 tracks_example
                           (take 3 calls_10_to_21) (fresh ticks_slow)))).
Proof.
  refine (proj1 (active_set_membership text_size_20x22 tracks_example
                   calls_10_to_21 0 2 10 [EPass pass_10_20] 20 []
                   pass_10_20 (fresh ticks_slow) _ _ _ _ _) _).
  - simpl. lia.
  - reflexivity.
  - simpl. left. reflexivity.
  - reflexivity.
  - lia.
  - right. simpl. lia.
Defined.

(** C2 as stated fails: a pass supplied after its window has ended, and a
    pass supplied again after it was pruned, are members of
    [active_pass_events] after a call whose frame number exceeds their
    [end_frame]. *)
Lemma late_pass_is_tracked_past_its_end :
  (nondecreasing (map fst calls_late_pass)
   ∧ In pass_12_22
        (active_pass_events
           (self (after_calls text_size_20x22 tracks_example calls_late_pass
                              (fresh ticks_slow))))
   ∧ PassEvent.end_frame pass_12_22 < 30)
  ∧ (nondecreasing (map fst calls_resupplied)
     ∧ In pass_10_20
          (active_pass_events
             (self (after_calls text_size_20x22 tracks_example
                                calls_resupplied (fresh ticks_slow))))
     ∧ PassEvent.end_frame pass_10_20 < 25).
Proof.
  split; (split; [simpl; lia|split; [vm_compute; tauto|simpl; lia]]).
Qed.

(** The banner loop at frame 15 of the window [10, 20]. *)
Lemma pass_banner_follows_progress_witness :
  draw_pass_banner text_size_20x22 15 pass_10_20 (fresh ticks_slow)
  = (Ok tt,
     paint (banner_calls text_size_20x22 init (720, 1280)
                         "Pass: Player 7 to Player 9" (0, 128, 0))
           (fresh ticks_slow))
  ∧ Qred (progress_of 15 pass_10_20) = 1 # 2.
Proof.
  assert (PassEvent.start_frame pass_10_20 < PassEvent.end_frame pass_10_20)
    as Hlt by (simpl; lia).
  destruct (pass_banner_follows_progress text_size_20x22 15 pass_10_20 Hlt)
    as (_ & Hbody & _ & _ & _ & Hhalf).
  split.
  - rewrite Hbody. reflexivity.
  - apply Hhalf; reflexivity.
Defined.

(** C4 as stated fails: with the passer untracked at [start_frame], or with
    a truthy [receiver_id] and no row for [end_frame], [draw_pass_event]
    raises and draws no banner. *)
Lemma untracked_passer_gets_no_banner :
  let r := draw_pass_event text_size_20x22 pass_unknown_passer
                           tracks_example (fresh ticks_slow) in
  let r' := draw_pass_event text_size_20x22 pass_no_end_row
                            tracks_example (fresh ticks_slow) in
  (r.1 = Raise KeyError ∧ drawn (canvas r.2) = [])
  ∧ (track_of tracks_example 21 9 = None
     ∧ r'.1 = Raise KeyError ∧ drawn (canvas r'.2) = []).
Proof. vm_compute. repeat split. Qed.

(** C4, for a receiver without entry at [end_frame]: the banner alone. *)
Lemma pass_event_banner_and_arrow_witness :
  new_calls (fresh ticks_slow)
    (draw_pass_event text_size_20x22 pass_unknown_receiver tracks_example
                     (fresh ticks_slow)).2
  = banner_calls text_size_20x22 init (720, 1280)
                 "PASS IN PROGRESS: Player 7 → Player 4" (0, 255, 0).
Proof.
  refine (proj2 (proj2 (proj2 (pass_event_banner_and_arrow text_size_20x22
                                 pass_unknown_receiver tracks_example
                                 (fresh ticks_slow)) _ _)) _).
  - vm_compute. eauto.
  - intros _. vm_compute. eauto.
  - reflexivity.
Defined.


(** C6 as stated fails: for a pressure event [draw_events] draws the banner
    and no geometry, whereas [draw_pressure_event] draws the circle and the
    line. *)
Lemma draw_events_draws_no_pressure_geometry :
  let r := draw_events text_size_20x22 [EPressure pressure_half] 20
                       tracks_example (fresh ticks_slow) in
  let r' := draw_pressure_event text_size_20x22 sin_sign pressure_half
                                tracks_example (fresh ticks_slow) in
  r.1 = Ok tt
  ∧ drawn (canvas r.2)
    = banner_calls text_size_20x22 init (720, 1280)
                   "Pressure: Player 9 on Player 0" (255, 0, 0)
  ∧ existsb is_geometry (drawn (canvas r.2)) = false
  ∧ existsb is_geometry (drawn (canvas r'.2)) = true.
Proof. vm_compute. repeat split. Qed.

(** C6, for a pressure event and a possession change on one frame. *)
Lemma other_events_get_banner_only_witness :
  let r := draw_events text_size_20x22
             [EPressure pressure_half; EPossession possession_1_2] 20
             tracks_example (fresh ticks_slow) in
  r.1 = Ok tt
  ∧ Forall (fun call => is_geometry call = false)
           (new_calls (fresh ticks_slow) r.2).
Proof.
  assert (Forall (fun e => ¬ degenerate e)
            (absorbed (active_pass_events (self (fresh ticks_slow)))
               [EPressure pressure_half; EPossession possession_1_2] 20))
    as Hnd by constructor.
  destruct (other_events_get_banner_only text_size_20x22
              [EPressure pressure_half; EPossession possession_1_2] 20
              tracks_example (fresh ticks_slow) Hnd)
    as (Hok & _ & _ & Hgeo).
  split; assumption.
Defined.

(** C8, on an untracked passer, an untracked pressured player and an
    untracked receiver. *)
Lemma missing_track_raises_witness :
  draw_pass_event text_size_20x22 pass_unknown_passer tracks_example
                  (fresh ticks_slow)
  = (Raise KeyError, fresh ticks_slow)
  ∧ draw_pressure_event text_size_20x22 sin_sign pressure_unknown
                        tracks_example (fresh ticks_slow)
    = (Raise KeyError, fresh ticks_slow)
  ∧ (draw_pass_event text_size_20x22 pass_unknown_receiver tracks_example
                     (fresh ticks_slow)).1
    = Ok tt.
Proof.
  destruct (missing_track_raises text_size_20x22 sin_sign tracks_example
              (fresh ticks_slow)) as (Hpass & Hpressure & Hreceiver).
  split; [|split].
  - apply Hpass. reflexivity.
  - apply Hpressure. left. reflexivity.
  - apply (Hreceiver pass_unknown_receiver 4).
    + vm_compute. eauto.
    + reflexivity.
    + vm_compute. eauto.
    + reflexivity.
Defined.

(** C9, on two hosts whose tick counters differ. *)
Lemma draw_events_deterministic_witness :
  let events := [EPass pass_10_20; EPressure pressure_half] in
  let r1 := draw_events text_size_20x22 events 20 tracks_example
                        (fresh ticks_slow) in
  let r2 := draw_events text_size_20x22 events 20 tracks_example
                        (fresh ticks_fast) in
  r1.1 = r2.1
  ∧ canvas r1.2 = canvas r2.2
  ∧ active_pass_events (self r1.2) = active_pass_events (self r2.2).
Proof.
  apply (draw_events_deterministic text_size_20x22
           [EPass pass_10_20; EPressure pressure_half] 20 tracks_example
           (fresh ticks_slow) (fresh ticks_fast)); reflexivity.
Defined.

(** [draw_pressure_event], which [draw_events] does not call, does read the
    tick counter: its circle differs between the two hosts. *)
Example pressure_circle_depends_on_clock :
  drawn (canvas (draw_pressure_event text_size_20x22 sin_sign pressure_half
                   tracks_example (fresh ticks_slow)).2)
  ≠ drawn (canvas (draw_pressure_event text_size_20x22 sin_sign pressure_half
                     tracks_example (fresh ticks_fast)).2).
Proof. vm_compute. discriminate. Qed.

(** C10, with player 0 tracked at [end_frame]. *)
Lemma falsy_receiver_draws_no_arrow_witness :
  is_Some (track_of tracks_example (PassEvent.end_frame pass_to_zero) 0)
  ∧ draw_pass_event text_size_20x22 pass_to_zero tracks_example
                    (fresh ticks_slow)
    = (Ok tt,
       paint (banner_calls text_size_20x22 init (720, 1280)
                "PASS IN PROGRESS: Player 7 → Player 0" (0, 255, 0))
             (fresh ticks_slow)).
Proof.
  split.
  - vm_compute. eauto.
  - refine (proj2 (proj2 (falsy_receiver_draws_no_arrow text_size_20x22
                            pass_to_zero tracks_example (fresh ticks_slow)
                            eq_refl)) _).
    vm_compute. eauto.
Defined.

(** A truthy receiver with an entry does get the arrow. *)
Example tracked_receiver_gets_arrow :
  new_calls (fresh ticks_slow)
    (draw_pass_event text_size_20x22 pass_10_20 tracks_example
                     (fresh ticks_slow)).2
  = ArrowedLine (100, 100) (300, 50) (0, 255, 0) 3
    :: banner_calls text_size_20x22 init (720, 1280)
                    "PASS IN PROGRESS: Player 7 → Player 9" (0, 255, 0).
Proof. vm_compute. reflexivity. Qed.

(** ** The further properties on examples *)

(** X2: the pass of window [10, 20] gets its banner, then the pass of window
    [5, 5] makes the call raise; the pressure banner is not drawn. *)
Lemma raise_leaves_partial_frame_witness :
  let r := draw_events text_size_20x22 events_with_crash 15 tracks_example
                       (fresh ticks_slow) in
  r.1 = Raise ZeroDivisionError
  ∧ drawn (canvas r.2)
    = banner_calls text_size_20x22 init (720, 1280)
                   "Pass: Player 7 to Player 9" (0, 128, 0)
  ∧ active_pass_events (self r.2) = [pass_10_20; pass_single_frame].
Proof.
  cbv zeta.
  rewrite (raise_leaves_partial_frame text_size_20x22 events_with_crash 15
             tracks_example (fresh ticks_slow) [pass_10_20]
             pass_single_frame []).
  - repeat split.
  - reflexivity.
  - repeat constructor. unfold degenerate. simpl. lia.
  - reflexivity.
Defined.

(** X3: a call at frame 10 that supplies a pass, then a call at frame 15. *)
Lemma earlier_prune_is_subsumed_witness :
  active_pass_events
    (self (after_calls text_size_20x22 tracks_example
             [(10, [EPass pass_10_20; EPass pass_single_frame]); (15, [])]
             (fresh ticks_slow)))
  = [pass_10_20].
Proof.
  refine (earlier_prune_is_subsumed text_size_20x22 tracks_example 10
            [EPass pass_10_20; EPass pass_single_frame] 15 []
            (fresh ticks_slow) _).
  lia.
Defined.

(** X4: the same pass supplied on three calls at frame 12. *)
Lemma resupplied_pass_accumulates_witness :
  active_pass_events
    (self (after_calls text_size_20x22 tracks_example
             (repeat (12, [EPass pass_10_20]) 3) (fresh ticks_slow)))
  = [pass_10_20; pass_10_20; pass_10_20].
Proof.
  refine (resupplied_pass_accumulates text_size_20x22 tracks_example 12
            pass_10_20 2 (fresh ticks_slow) _).
  simpl. lia.
Defined.

(** X5: the possession change is the last event that is not a pass. *)
Lemma last_event_banner_is_on_top_witness :
  ∃ before,
    new_calls (fresh ticks_slow)
      (draw_events text_size_20x22 events_mixed 15 tracks_example
                   (fresh ticks_slow)).2
    = before
      ++ banner_calls text_size_20x22 init (720, 1280)
                      "Possession: Team 1 to Team 2" (0, 0, 255).
Proof.
  refine (last_event_banner_is_on_top text_size_20x22 events_mixed 15
            tracks_example (fresh ticks_slow) [EPressure pressure_half]
            (EPossession possession_1_2) [EPass pass_10_20] _ _ _ _).
  - reflexivity.
  - reflexivity.
  - repeat constructor.
  - repeat constructor. unfold degenerate. simpl. lia.
Defined.

(** X9: a tracked, non-zero receiver. *)
Lemma arrow_drawn_iff_receiver_resolved_witness :
  new_calls (fresh ticks_slow)
    (draw_pass_event text_size_20x22 pass_10_20 tracks_example
                     (fresh ticks_slow)).2
  = ArrowedLine (100, 100) (300, 50) (0, 255, 0) 3
    :: banner_calls text_size_20x22 init (720, 1280)
                    "PASS IN PROGRESS: Player 7 → Player 9" (0, 255, 0).
Proof.
  refine (proj2 (arrow_drawn_iff_receiver_resolved text_size_20x22
                   pass_10_20 tracks_example (fresh ticks_slow))
                {| position := (100 # 1, 201 # 2) |} 9
                {| position := (300 # 1, 50 # 1) |} _).
  repeat split. lia.
Defined.

(** X10: the passer tracked and the row of [end_frame] present. *)
Lemma draw_pass_event_fails_atomically_witness :
  (draw_pass_event text_size_20x22 pass_unknown_receiver tracks_example
                   (fresh ticks_slow)).1
  = Ok tt.
Proof.
  apply (proj1 (draw_pass_event_fails_atomically text_size_20x22
                  pass_unknown_receiver tracks_example (fresh ticks_slow))).
  split.
  - vm_compute. eauto.
  - intros _. vm_compute. eauto.
Defined.

(** X11: both participants tracked. *)
Lemma draw_pressure_event_fails_atomically_witness :
  (draw_pressure_event text_size_20x22 sin_sign pressure_half tracks_example
                       (fresh ticks_slow)).1
  = Ok tt.
Proof.
  apply (proj1 (draw_pressure_event_fails_atomically text_size_20x22
                  sin_sign pressure_half tracks_example (fresh ticks_slow))).
  split; vm_compute; eauto.
Defined.

(** X12: with the stand-in for the sine, which stays within [-1, 1]. *)
Lemma pulse_radius_bounds_witness :
  30 <= 50 <= 50
  ∧ (0, 0, 255) = (0, 0, 255) ∧ 2 = 2
  ∧ ∃ pressured,
      track_of tracks_example 20 0 = Some pressured
      ∧ (1, 2) = int_position pressured.
Proof.
  refine (pulse_radius_bounds text_size_20x22 sin_sign pressure_half
            tracks_example (fresh ticks_fast) (1, 2) 50 (0, 0, 255) 2 _ _).
  - intros x. unfold sin_sign.
    destruct (Qnum x); unfold Qle; simpl; lia.
  - vm_compute. left. reflexivity.
Defined.

(** X13: at intensity 1/2. *)
Lemma intensity_color_channels_witness :
  ∃ g r,
    intensity_color (1 # 2) = (0, g, r)
    ∧ 0 <= g <= 255 ∧ 0 <= r <= 255 ∧ 254 <= g + r <= 255.
Proof.
  apply (intensity_color_channels (1 # 2)); unfold Qle; simpl; lia.
Defined.

(** X14: a call at frame 15 that supplies a pass given backwards, from 20
    to 10, and the pass of window [10, 20]: both banners are drawn. *)
Lemma banner_window_either_order_witness :
  new_calls (fresh ticks_slow)
    (draw_events text_size_20x22 events_reversed 15 tracks_example
                 (fresh ticks_slow)).2
  = banner_calls text_size_20x22 init (720, 1280)
                 "Pass: Player 7 to Player 9" (0, 128, 0)
    ++ banner_calls text_size_20x22 init (720, 1280)
                    "Pass: Player 7 to Player 9" (0, 128, 0).
Proof.
  refine (proj1 (banner_window_either_order text_size_20x22 events_reversed
                   15 tracks_example (fresh ticks_slow) _)).
  repeat constructor; unfold degenerate; simpl; lia.
Defined.

(** C3 (the code departs from the claim).  The pass of window [10, 20] is
    tracked and, at frame 15, its progress 1/2 lies in [0, 1]; but a pass of
    window [5, 5] supplied before it makes line 112 divide by zero first:
    [draw_events] raises and the banner of the pass in progress is not
    drawn. *)
Theorem banner_lost_after_empty_window :
  let r := draw_events text_size_20x22 events_crash_first 15 tracks_example
                       (fresh ticks_slow) in
  active_pass_events (self r.2) = [pass_single_frame; pass_10_20]
  ∧ PassEvent.start_frame pass_10_20 < PassEvent.end_frame pass_10_20
  ∧ Qred (progress_of 15 pass_10_20) = 1 # 2
  ∧ in_progress 15 pass_10_20 = true
  ∧ r.1 = Raise ZeroDivisionError
  ∧ drawn (canvas r.2) = [].
Proof.
  cbv zeta.
  rewrite (run_draw_events_degenerate text_size_20x22 events_crash_first 15
             tracks_example (fresh ticks_slow) [] pass_single_frame
             [pass_10_20]); [|reflexivity|constructor|reflexivity].
  repeat split.
Qed.
